(** * MindCare AI: the response-parsing and report-rendering pipeline of app.py

    A shallow embedding of the five pure helpers of [app.py]
    ([parse_sentiments], [parse_risk_score], [display_risk_level],
    [generate_pdf_report] and the regular expressions they run), and the
    properties of the specification that concern them.

    Conventions.
    - A Python [str] read by the parsers is a list of characters.
      Characters are the code points below 256 ([ascii]); on that range
      [\d] is [0-9], [.] is any character but the line feed, and
      [re.IGNORECASE] folds exactly the ASCII letters of the two patterns.
      String literals of the program that hold other code points (the
      emoji of the banner) are written as their UTF-8 bytes.
    - The exporter takes a string of any code points ([pystr]): its
      writer raises on those that its font does not encode.
    - Python [int] is [Z]; [int(str)] raises past the interpreter's limit
      of digits.
    - A call that may raise returns a [result]. *)

From Stdlib Require Import Ascii String List ZArith Lia Bool Arith.
From Stdlib Require Import DecimalString.
Import ListNotations.

Open Scope string_scope.
Open Scope list_scope.

(** ** Text *)

Definition text := list ascii.

Definition text_of (s : string) : text := list_ascii_of_string s.
Coercion text_of : string >-> text.

Definition newline : ascii := ascii_of_nat 10.

Definition code (c : ascii) : nat := nat_of_ascii c.

(** [str.isdigit] / the class [\d] on code points below 256. *)
Definition is_digit (c : ascii) : bool :=
  (48 <=? code c)%nat && (code c <=? 57)%nat.

(** The simple lower-case mapping, restricted to what can fold onto an
    ASCII letter. *)
Definition to_lower (c : ascii) : ascii :=
  if ((65 <=? code c) && (code c <=? 90))%nat then ascii_of_nat (code c + 32) else c.

Definition lower (s : text) : text := map to_lower s.

Definition text_eqb (a b : text) : bool :=
  if list_eq_dec ascii_dec a b then true else false.

(** ** Exceptions *)

Inductive exn :=
| ValueError       (* raised by [int] *)
| EncodingError.   (* raised by the document writer on a character that
                      its font does not encode *)

Inductive result (A : Type) :=
| Ok (a : A)
| Raise (e : exn).
Arguments Ok {A} a.
Arguments Raise {A} e.

Definition bind {A B} (r : result A) (f : A -> result B) : result B :=
  match r with
  | Ok a => f a
  | Raise e => Raise e
  end.

Notation "x <- r ;; k" := (bind r (fun x => k))
  (at level 61, r at next level, right associativity).

(** ** [int(str)]

    Only the part of [int] that the program reaches: a literal made of one
    or more decimal digits has its decimal value; the empty literal and a
    literal with another character raise [ValueError] here.  (Signs, blanks
    and underscores, which [int] also reads, never reach it: both call
    sites pass a capture of [\d+] or [\d{1,3}].)  A literal of more
    digits than the interpreter's limit raises [ValueError] as well. *)

(** [sys.int_info.default_max_str_digits], the limit of an interpreter
    started with its defaults. *)
Definition int_max_str_digits : Z := 4300.

Definition digit_val (c : ascii) : Z := Z.of_nat (code c) - 48.

Definition digits_value (ds : text) : Z :=
  fold_left (fun acc c => 10 * acc + digit_val c)%Z ds 0%Z.

Definition py_int (s : text) : result Z :=
  match s with
  | [] => Raise ValueError
  | _ :: _ =>
      if forallb is_digit s then
        if (Z.of_nat (length s) <=? int_max_str_digits)%Z
        then Ok (digits_value s)
        else Raise ValueError
      else Raise ValueError
  end.

(** ** Regular expressions

    The fragment of [re] the two patterns are written in: character
    classes, concatenation, ordered alternation, the lazy star and the
    greedy bounded repetition of a class, and numbered capture groups.
    Matching is by backtracking in continuation-passing style, in the
    order [re] tries the alternatives, so the first success is the match
    [re] reports. *)

Inductive cclass :=
| CAny                 (* .   (no DOTALL: not the line feed) *)
| CDigit               (* \d *)
| CLit (c : ascii).    (* a literal character *)

Inductive regex :=
| Eps
| Chr (cl : cclass)
| Cat (r1 r2 : regex)
| Alt (r1 r2 : regex)
| LazyStar (cl : cclass)                           (* cl*? *)
| Greedy (cl : cclass) (lo : nat) (hi : option nat) (* cl{lo,hi}; cl+ is {1,} *)
| Group (n : nat) (r : regex).

(** A literal word, character by character. *)
Fixpoint word (w : text) : regex :=
  match w with
  | [] => Eps
  | c :: w' => Cat (Chr (CLit c)) (word w')
  end.

Definition groups := list (nat * text).

Definition set_group (n : nat) (t : text) (g : groups) : groups := (n, t) :: g.

Fixpoint get_group (n : nat) (g : groups) : option text :=
  match g with
  | [] => None
  | (m, t) :: g' => if (m =? n)%nat then Some t else get_group n g'
  end.

(** [Match.group(n)] as [findall] reports it: a group that took no part
    is the empty string. *)
Definition group (n : nat) (g : groups) : text :=
  match get_group n g with
  | Some t => t
  | None => []
  end.

(** The characters between the position [s] and the later position [s']. *)
Definition consumed (s s' : text) : text := firstn (length s - length s') s.

Set Implicit Arguments.

Section Matcher.

(** [re.IGNORECASE] *)
Variable ignorecase : bool.

Definition cmatch (cl : cclass) (c : ascii) : bool :=
  match cl with
  | CAny => negb (Ascii.eqb c newline)
  | CDigit => is_digit c
  | CLit l =>
      if ignorecase then Ascii.eqb (to_lower c) (to_lower l) else Ascii.eqb c l
  end.

Variable A : Type.

(** [cl*?]: first the rest of the pattern here, then one character more. *)
Fixpoint lazy_star (cl : cclass) (s : text) (k : text -> option A) : option A :=
  match k s with
  | Some a => Some a
  | None =>
      match s with
      | c :: s' => if cmatch cl c then lazy_star cl s' k else None
      | [] => None
      end
  end.

Definition room (hi : option nat) : bool :=
  match hi with
  | Some 0 => false
  | _ => true
  end.

(** [cl{lo,hi}]: as many characters as allowed first, then one fewer. *)
Fixpoint greedy (cl : cclass) (lo : nat) (hi : option nat) (s : text)
    (k : text -> option A) : option A :=
  let stop := match lo with 0 => k s | S _ => None end in
  match s with
  | c :: s' =>
      if cmatch cl c && room hi then
        match greedy cl (pred lo) (option_map pred hi) s' k with
        | Some a => Some a
        | None => stop
        end
      else stop
  | [] => stop
  end.

Fixpoint rmatch (r : regex) (s : text) (g : groups)
    (k : text -> groups -> option A) : option A :=
  match r with
  | Eps => k s g
  | Chr cl =>
      match s with
      | c :: s' => if cmatch cl c then k s' g else None
      | [] => None
      end
  | Cat r1 r2 => rmatch r1 s g (fun s' g' => rmatch r2 s' g' k)
  | Alt r1 r2 =>
      match rmatch r1 s g k with
      | Some a => Some a
      | None => rmatch r2 s g k
      end
  | LazyStar cl => lazy_star cl s (fun s' => k s' g)
  | Greedy cl lo hi => greedy cl lo hi s (fun s' => k s' g)
  | Group n r' => rmatch r' s g (fun s' g' => k s' (set_group n (consumed s s') g'))
  end.

End Matcher.

Unset Implicit Arguments.

(** A match at the start of [s]: what is left of [s] after it, and the groups. *)
Definition re_match (ic : bool) (r : regex) (s : text) : option (text * groups) :=
  rmatch ic r s [] (fun s' g => Some (s', g)).

(** [re.search]: the match at the leftmost position that has one. *)
Fixpoint re_search (ic : bool) (r : regex) (s : text) : option (text * groups) :=
  match re_match ic r s with
  | Some m => Some m
  | None =>
      match s with
      | _ :: s' => re_search ic r s'
      | [] => None
      end
  end.

(** [re.findall]: the successive non-overlapping matches, left to right.
    [skip] counts the characters of the last match still to be passed. *)
Fixpoint findall_from (ic : bool) (r : regex) (skip : nat) (s : text) : list groups :=
  match skip, s with
  | S n, _ :: s' => findall_from ic r n s'
  | S _, [] => []
  | 0, _ =>
      match re_match ic r s with
      | Some (rest, g) =>
          g :: match s with
               | _ :: s' => findall_from ic r (length s' - length rest) s'
               | [] => []
               end
      | None =>
          match s with
          | _ :: s' => findall_from ic r 0 s'
          | [] => []
          end
      end
  end.

Definition re_findall (ic : bool) (r : regex) (s : text) : list groups :=
  findall_from ic r 0 s.

Definition IGNORECASE := true.

(** ** Response parser *)

(** A [dict] with [str] keys and [int] values, in insertion order.
    Assigning to a key that is present replaces its value in place. *)
Definition dict := list (text * Z).

Fixpoint dict_set (k : text) (v : Z) (d : dict) : dict :=
  match d with
  | [] => [(k, v)]
  | (k', v') :: d' =>
      if text_eqb k' k then (k', v) :: d' else (k', v') :: dict_set k v d'
  end.

Fixpoint dict_get (k : text) (d : dict) : option Z :=
  match d with
  | [] => None
  | (k', v') :: d' => if text_eqb k' k then Some v' else dict_get k d'
  end.

Definition dict_keys (d : dict) : list text := map fst d.
Definition dict_values (d : dict) : list Z := map snd d.

(** [r"(Positive|Neutral|Negative).*?(\d+)%"] *)
Definition sentiment_re : regex :=
  Cat (Group 1 (Alt (word "Positive") (Alt (word "Neutral") (word "Negative"))))
      (Cat (LazyStar CAny)
           (Cat (Group 2 (Greedy CDigit 1 None)) (Chr (CLit "%")))).

(** [re.findall] on a pattern with two groups: the pairs of their texts. *)
Definition findall_pairs (ic : bool) (r : regex) (s : text) : list (text * text) :=
  map (fun g => (group 1 g, group 2 g)) (re_findall ic r s).

(** [{label: int(score) for label, score in matches}] *)
Fixpoint dict_comp (matches : list (text * text)) (d : dict) : result dict :=
  match matches with
  | [] => Ok d
  | (label, score) :: rest =>
      v <- py_int score ;; dict_comp rest (dict_set label v d)
  end.

Definition parse_sentiments (t : text) : result dict :=
  let matches := findall_pairs IGNORECASE sentiment_re t in
  dict_comp matches [].

(** [r"Risk.*?(\d{1,3})"] *)
Definition risk_re : regex :=
  Cat (word "Risk") (Cat (LazyStar CAny) (Group 1 (Greedy CDigit 1 (Some 3)))).

Definition parse_risk_score (t : text) : result Z :=
  match re_search IGNORECASE risk_re t with
  | Some (_, g) =>
      val <- py_int (group 1 g) ;;
      Ok (Z.max 0 (Z.min val 100))
  | None => Ok 0%Z
  end.

(** ** Risk presenter *)

(** [str(n)] for an [int]. *)
Definition str_int (n : Z) : text := text_of (NilZero.string_of_int (Z.to_int n)).

(** The page under construction: the bodies passed to [st.markdown], in
    the order of the calls. *)
Definition page := list text.

Definition st_markdown (body : text) (p : page) : page := p ++ [body].

Definition crisis_link : text :=
  "[🆘 Crisis Support Resources](https://www.opencounseling.com/suicide-hotlines)".

Definition display_risk_level (score : Z) (p : page) : page :=
  if (67 <=? score)%Z then
    let p := st_markdown (text_of "### 🔴 High Risk (" ++ str_int score ++ text_of "/100)") p in
    st_markdown crisis_link p
  else if ((34 <=? score) && (score <=? 66))%Z then
    st_markdown (text_of "### 🟠 Moderate Risk (" ++ str_int score ++ text_of "/100)") p
  else
    st_markdown (text_of "### 🟢 Low Risk (" ++ str_int score ++ text_of "/100)") p.

(** The tier is the branch [display_risk_level] takes; the program has no
    classifier apart from it. *)
Inductive RiskTier := LOW | MODERATE | HIGH.

Definition classify (score : Z) : RiskTier :=
  if (67 <=? score)%Z then HIGH
  else if ((34 <=? score) && (score <=? 66))%Z then MODERATE
  else LOW.

Definition tier_heading (t : RiskTier) : text :=
  match t with
  | HIGH => "### 🔴 High Risk ("
  | MODERATE => "### 🟠 Moderate Risk ("
  | LOW => "### 🟢 Low Risk ("
  end.

(** What [display_risk_level] writes in a tier: the heading of the tier
    with the score out of 100, and the crisis link after it in the HIGH
    tier. *)
Definition tier_blocks (t : RiskTier) (score : Z) : list text :=
  (tier_heading t ++ str_int score ++ text_of "/100)")
  :: match t with
     | HIGH => [crisis_link]
     | _ => []
     end.

(** ** Report exporter *)

(** [str.strip] and [str.split] do not depend on what a character is:
    they are given here for any type of characters, with the test for
    white space and for the separator. *)
Section Strings.

Context {A : Type}.

(** [str.isspace] on a character *)
Variable is_sp : A -> bool.

Fixpoint lstrip_by (s : list A) : list A :=
  match s with
  | c :: s' => if is_sp c then lstrip_by s' else s
  | [] => []
  end.

Definition rstrip_by (s : list A) : list A := rev (lstrip_by (rev s)).

Definition strip_by (s : list A) : list A := rstrip_by (lstrip_by s).

(** A string with no white space at either end. *)
Definition tight_by (s : list A) : bool :=
  match s with
  | [] => true
  | c :: _ => negb (is_sp c) && negb (is_sp (last s c))
  end.

(** The test for the separator of [str.split(sep)], one character. *)
Variable is_sep : A -> bool.

Fixpoint split_by (s : list A) : list (list A) :=
  match s with
  | [] => [[]]
  | c :: s' =>
      if is_sep c then [] :: split_by s'
      else
        match split_by s' with
        | l :: ls => (c :: l) :: ls
        | [] => [[c]]
        end
  end.

(** [sep.join(lines)] *)
Fixpoint join_by (sep : A) (lines : list (list A)) : list A :=
  match lines with
  | [] => []
  | [l] => l
  | l :: rest => l ++ sep :: join_by sep rest
  end.

End Strings.

(** [str.isspace] on code points below 256. *)
Definition is_space (c : ascii) : bool :=
  ((9 <=? code c) && (code c <=? 13)
   || (28 <=? code c) && (code c <=? 32)
   || (code c =? 133) || (code c =? 160))%nat.

Definition strip (s : text) : text := strip_by is_space s.

(** The report is exported from a reply as the model client returns it,
    which may hold any character: a Python [str] in general is the list
    of its code points. *)
Definition codepoint := N.

Definition pystr := list codepoint.

Definition pystr_of (t : text) : pystr := map (fun c => N.of_nat (code c)) t.

Definition line_feed : codepoint := 10%N.

(** [str.isspace] on every code point. *)
Definition is_space_cp (c : codepoint) : bool :=
  ((9 <=? c) && (c <=? 13)
   || (28 <=? c) && (c <=? 32)
   || (c =? 133) || (c =? 160)
   || (c =? 5760)
   || (8192 <=? c) && (c <=? 8202)
   || (c =? 8232) || (c =? 8233) || (c =? 8239) || (c =? 8287)
   || (c =? 12288))%N.

(** [text.split('\n')] *)
Definition split_lines (t : pystr) : list pystr := split_by (N.eqb line_feed) t.

(** [line.strip()] *)
Definition strip_cp (line : pystr) : pystr := strip_by is_space_cp line.

(** The characters the built-in font of the writer (Arial) encodes: the
    code points up to U+00FF. *)
Definition encodable (c : codepoint) : bool := (c <? 256)%N.

(** One [cell] that ends its line: a row of the page, of height [row_h]. *)
Record row := mkRow { row_h : Z; row_txt : pystr }.

Section Writer.

(** How many rows the writer puts on a page before it breaks the page. *)
Variable rows_per_page : nat.

(** Modelled from the spec: the document writer [FPDF] (the fpdf package,
    not under src/).  A document is its pages, the current one last, each
    the rows written on it.  [cell] with [ln=True] emits one row of the
    given height; when the current page already holds its capacity of
    rows the writer first starts a new page (automatic pagination), so no
    row is dropped.  A text with a character that the font does not
    encode makes the writer raise, and the export fails. *)
Record FPDF := mkFPDF { pages : list (list row); font : option (text * Z) }.

Definition FPDF_new : FPDF := mkFPDF [] None.

Definition add_page (pdf : FPDF) : FPDF :=
  mkFPDF (pages pdf ++ [[]]) (font pdf).

Definition set_font (family : text) (size : Z) (pdf : FPDF) : FPDF :=
  mkFPDF (pages pdf) (Some (family, size)).

Definition current_page (pdf : FPDF) : list row := last (pages pdf) [].

Definition put_row (r : row) (pdf : FPDF) : FPDF :=
  mkFPDF (removelast (pages pdf) ++ [current_page pdf ++ [r]]) (font pdf).

Definition cell (w h : Z) (txt : pystr) (pdf : FPDF) : result FPDF :=
  if forallb encodable txt then
    let pdf := if (rows_per_page <=? length (current_page pdf))%nat
               then add_page pdf else pdf in
    Ok (put_row (mkRow h txt) pdf)
  else Raise EncodingError.

(** [pdf.output(buffer)]: the document, page by page. *)
Definition output (pdf : FPDF) : list (list row) := pages pdf.

(** The loop of [generate_pdf_report]. *)
Fixpoint write_lines (lines : list pystr) (pdf : FPDF) : result FPDF :=
  match lines with
  | [] => Ok pdf
  | line :: rest =>
      pdf <- cell 0 10 (strip_cp line) pdf ;;
      write_lines rest pdf
  end.

Definition generate_pdf_report (t : pystr) : result (list (list row)) :=
  let pdf := FPDF_new in
  let pdf := add_page pdf in
  let pdf := set_font "Arial" 12 pdf in
  pdf <- write_lines (split_lines t) pdf ;;
  Ok (output pdf).

(** The rows of a document in reading order. *)
Definition rendered_rows (doc : list (list row)) : list row := concat doc.

(** Pagination: no page holds more rows than the capacity. *)
Definition pages_within (pdf : FPDF) : Prop :=
  Forall (fun pg => length pg <= rows_per_page) (pages pdf).

End Writer.

(** Every line of the text, stripped, is made of characters that the
    writer encodes. *)
Definition encodable_lines (t : pystr) : bool :=
  forallb (fun line => forallb encodable (strip_cp line)) (split_lines t).

(** ** Vocabulary of the statements *)

(** [needle] occurs in [hay]. *)
Definition contains (needle hay : text) : Prop :=
  exists pre post, hay = pre ++ needle ++ post.

(** The word [w] is read at the start of [s] (under [re.IGNORECASE] when
    [ic] is set). *)
Fixpoint starts_with (ic : bool) (w s : text) : bool :=
  match w, s with
  | [], _ => true
  | c :: w', d :: s' => cmatch ic (CLit c) d && starts_with ic w' s'
  | _ :: _, [] => false
  end.

(** The longest prefix of [s] whose characters satisfy [p], and the rest. *)
Fixpoint span (p : ascii -> bool) (s : text) : text * text :=
  match s with
  | c :: s' => if p c then let (a, b) := span p s' in (c :: a, b) else ([], s)
  | [] => ([], [])
  end.

(** The digits at the start of [s], [n] of them at most. *)
Fixpoint digits_upto (n : nat) (s : text) : text :=
  match n, s with
  | S n', c :: s' => if is_digit c then c :: digits_upto n' s' else []
  | _, _ => []
  end.

Definition canonical_labels : list text :=
  [text_of "Positive"; text_of "Neutral"; text_of "Negative"].

(** [k] spells one of the three labels, in any letter case. *)
Definition is_label (k : text) : Prop :=
  exists c, In c canonical_labels /\ lower k = lower c.

(** The value of the last pair of [ms] whose key is [k]. *)
Fixpoint last_binding (k : text) (ms : list (text * Z)) : option Z :=
  match ms with
  | [] => None
  | (k', v) :: rest =>
      match last_binding k rest with
      | Some v' => Some v'
      | None => if text_eqb k' k then Some v else None
      end
  end.

Definition clamp (v : Z) : Z := Z.max 0 (Z.min v 100).

(** The score extraction in plain words, without a regular expression,
    as the program has it (the words of claim C3 with the line taken into
    account): find the first place where the word
    Risk is written, in any letter case, with a digit after it before its
    line ends; take the run of digits that starts at that digit, three of
    them at most; read it as a number and clamp it to [0,100]; 0 when
    there is no such place. *)
Module Spec.

Definition risk_here (s : text) : bool :=
  text_eqb (lower (firstn 4 s)) "risk".

(** The digits that follow on the line of [s]: the first run, cut to
    three. *)
Fixpoint digits_following (s : text) : option text :=
  match s with
  | [] => None
  | c :: s' =>
      if is_digit c then Some (digits_upto 3 s)
      else if Ascii.eqb c newline then None
      else digits_following s'
  end.

Fixpoint risk_digits (s : text) : option text :=
  match (if risk_here s then digits_following (skipn 4 s) else None) with
  | Some ds => Some ds
  | None =>
      match s with
      | _ :: s' => risk_digits s'
      | [] => None
      end
  end.

Definition extractRiskScore (s : text) : Z :=
  match risk_digits s with
  | Some ds => clamp (digits_value ds)
  | None => 0%Z
  end.

End Spec.

(** The score extraction as the specification and claim C3 word it, where
    the digits may follow the word Risk across any characters: find the
    first place where the word Risk is written, in any letter case, with a
    digit anywhere after it; take the run of digits that starts at the
    first such digit, three of them at most; read it as a number and clamp
    it to [0,100]; 0 when there is no such place. *)
Module Worded.

Fixpoint digits_after (s : text) : option text :=
  match s with
  | [] => None
  | c :: s' => if is_digit c then Some (digits_upto 3 s) else digits_after s'
  end.

Fixpoint risk_digits (s : text) : option text :=
  match (if Spec.risk_here s then digits_after (skipn 4 s) else None) with
  | Some ds => Some ds
  | None =>
      match s with
      | _ :: s' => risk_digits s'
      | [] => None
      end
  end.

Definition extractRiskScore (s : text) : Z :=
  match risk_digits s with
  | Some ds => clamp (digits_value ds)
  | None => 0%Z
  end.

End Worded.

(** No occurrence of the word Risk that starts in [pre] has a digit after
    it on its line, in the text [pre ++ tail]: what [tail] starts with is
    then the first place of the kind. *)
Fixpoint no_risk_number (pre tail : text) : bool :=
  match pre with
  | [] => true
  | _ :: pre' =>
      negb (Spec.risk_here (pre ++ tail)
            && match Spec.digits_following (skipn 4 (pre ++ tail)) with
               | Some _ => true
               | None => false
               end)
      && no_risk_number pre' tail
  end.

(** What the patterns read after their keyword, as plain scans. *)

(** [(\d+)%] read at [s]: the run of digits there and what follows the
    percent sign. *)
Definition percent_here (s : text) : option (text * text) :=
  match span is_digit s with
  | ((_ :: _) as ds, c :: rest) => if Ascii.eqb c "%" then Some (ds, rest) else None
  | _ => None
  end.

(** [.*?(\d+)%] read at [s]: the first number with its percent sign on
    the line of [s]. *)
Fixpoint percent_following (s : text) : option (text * text) :=
  match percent_here s with
  | Some x => Some x
  | None =>
      match s with
      | c :: s' => if Ascii.eqb c newline then None else percent_following s'
      | [] => None
      end
  end.

(** One alternative of the label group, then the rest of the pattern. *)
Definition try_label (w s : text) : option (text * groups) :=
  if starts_with true w s then
    match percent_following (skipn (length w) s) with
    | Some (ds, rest) => Some (rest, [(2, ds); (1, firstn (length w) s)])
    | None => None
    end
  else None.

Definition orelse {A} (a b : option A) : option A :=
  match a with
  | Some x => Some x
  | None => b
  end.

(** A stretch between a label and its number that the lazy scan crosses
    without matching inside it: no line feed, and every digit in it is
    followed, still inside it, by something else than a percent sign. *)
Fixpoint gap_ok (mid : text) : bool :=
  match mid with
  | [] => true
  | c :: rest =>
      negb (Ascii.eqb c newline)
      && (if is_digit c
          then match rest with
               | [] => false
               | d :: _ => negb (Ascii.eqb d "%")
               end
          else true)
      && gap_ok rest
  end.

(** The left-to-right scan of [findall] over [pre ++ tail], with [skip]
    characters of a match still to pass, arrives at the place where
    [tail] starts: no match found on the way runs across that place. *)
Fixpoint scan_arrives (ic : bool) (r : regex) (skip : nat) (pre tail : text) : bool :=
  match pre with
  | [] => (skip =? 0)%nat
  | _ :: pre' =>
      match skip with
      | S n => scan_arrives ic r n pre' tail
      | 0 =>
          match re_match ic r (pre ++ tail) with
          | Some (rest, _) =>
              scan_arrives ic r (length (pre' ++ tail) - length rest) pre' tail
          | None => scan_arrives ic r 0 pre' tail
          end
      end
  end.

(** No character of [pre] is the given letter, in either case. *)
Definition free_of (letters : text) (pre : text) : bool :=
  forallb (fun c => negb (existsb (Ascii.eqb (to_lower c)) letters)) pre.

(** Every score of the pairs is short enough for [int]. *)
Definition within_limit (ms : list (text * text)) : bool :=
  forallb (fun m => (Z.of_nat (length (snd m)) <=? int_max_str_digits)%Z) ms.

(** The pairs [findall] reports, with the scores read as numbers. *)
Definition scored (ms : list (text * text)) : list (text * Z) :=
  map (fun m => (fst m, digits_value (snd m))) ms.

(** The assignments of the comprehension, one after the other. *)
Definition dict_of (ms : list (text * Z)) (d : dict) : dict :=
  fold_left (fun d m => dict_set (fst m) (snd m) d) ms d.

(** A stretch between the word Risk and its number: no line feed, and no
    digit (a digit there would start the number). *)
Definition risk_gap_ok (mid : text) : bool :=
  forallb (fun c => negb (is_digit c) && negb (Ascii.eqb c newline)) mid.

(** ** Session driver

    The script part of [app.py] and its two service helpers.  The hosted
    model, the chart renderer and the widgets are outside the program:
    the two services are parameters that return or raise, and a widget
    call adds the widget to the page. *)

(** What [st.file_uploader] returns for an upload. *)
Record UploadedFile := mkUpload { file_type : text; file_bytes : text }.

(** [{"mime_type": ..., "data": ...}] *)
Record ImagePart := mkImagePart { mime_type : text; data : text }.

Definition input_image_setup (uploaded_file : UploadedFile) : list ImagePart :=
  let bytes_data := file_bytes uploaded_file in
  [mkImagePart (file_type uploaded_file) bytes_data].

(** An item of the list passed to [generate_content]. *)
Inductive content :=
| CText (t : text)
| CImage (p : ImagePart).

(** A call of the hosted model: the model it names and what it is sent. *)
Record request := mkRequest { model_name : text; contents : list content }.

(** What [except Exception] can catch here. *)
Inductive exception :=
| Builtin (e : exn)          (* raised by [int] or by the document writer *)
| TypeError                  (* subscript of [None] *)
| IndexError                 (* subscript of an empty list *)
| External (msg : text).     (* raised by a service *)

Inductive outcome (A : Type) :=
| Returned (a : A)
| Thrown (e : exception).
Arguments Returned {A} a.
Arguments Thrown {A} e.

(** The figure [plot_emotion_pie] asks for:
    [ax.pie(values, labels=labels, autopct='%1.0f%%', startangle=90)]
    with [ax.axis('equal')]. *)
Record figure := mkFigure {
  pie_values : list Z;
  pie_labels : list text;
  autopct : text;
  startangle : Z;
  axis_equal : bool
}.

Inductive widget :=
| StImage (f : UploadedFile) (caption : text)
| StWarning (body : text)
| StSubheader (body : text)
| StWrite (body : text)
| StMarkdown (body : text)
| StPyplot (fig : figure)
| StDownloadButton (label : text) (report : list (list row)) (file_name : text)
| StError (e : exception).   (* f"An error occurred during analysis: {e}" *)

(** The page shown to the user and the calls made to the hosted model.
    ([st.spinner] shows its message only while its block runs and leaves
    nothing on the page.) *)
Record world := mkWorld { ui : list widget; calls : list request }.

(** A statement: it changes the world, and returns or raises. *)
Definition prog (A : Type) := world -> world * outcome A.

Definition ret {A} (a : A) : prog A := fun w => (w, Returned a).

Definition throw {A} (e : exception) : prog A := fun w => (w, Thrown e).

Definition seq {A B} (m : prog A) (k : A -> prog B) : prog B :=
  fun w =>
    match m w with
    | (w', Returned a) => k a w'
    | (w', Thrown e) => (w', Thrown e)
    end.

Notation "x <~ m ;; k" := (seq m (fun x => k))
  (at level 61, m at next level, right associativity).

(** A widget call. *)
Definition st (x : widget) : prog unit :=
  fun w => (mkWorld (ui w ++ [x]) (calls w), Returned tt).

(** The [st.markdown] calls of a presenter, on the page of the session. *)
Definition st_markdowns (f : page -> page) : prog unit :=
  fun w => (mkWorld (ui w ++ map StMarkdown (f [])) (calls w), Returned tt).

(** A call whose only exception is the built-in one. *)
Definition lift {A} (r : result A) : prog A :=
  match r with
  | Ok a => ret a
  | Raise e => throw (Builtin e)
  end.

(** The keys of a dictionary in the order in which a sequence of
    assignments first names them. *)
Fixpoint first_seen (seen ks : list text) : list text :=
  match ks with
  | [] => []
  | k :: rest =>
      if existsb (text_eqb k) seen then first_seen seen rest
      else k :: first_seen (k :: seen) rest
  end.

Section Session.

(** The constant [gemini_prompt]: a fixed instruction text, passed on
    unread. *)
Variable gemini_prompt : text.

(** [genai.GenerativeModel(name).generate_content(contents).text] *)
Variable generate_content : request -> outcome text.

(** The chart renderer ([ax.pie] and [st.pyplot]). *)
Variable render : figure -> outcome unit.

(** The row capacity of a page of the document writer. *)
Variable rows_per_page : nat.

Definition call_model (r : request) : prog text :=
  fun w => (mkWorld (ui w) (calls w ++ [r]), generate_content r).

Definition get_gemini_response (user_text : text)
    (image_parts : option (list ImagePart)) (prompt : text)
    (image_uploaded : bool) : prog text :=
  let model := text_of "gemini-1.5-flash" in
  if image_uploaded then
    match image_parts with
    | None => throw TypeError
    | Some [] => throw IndexError
    | Some (part :: _) =>
        call_model (mkRequest model [CText user_text; CImage part; CText prompt])
    end
  else
    call_model (mkRequest model [CText user_text; CText prompt]).

Definition plot_emotion_pie (sentiments : dict) : prog unit :=
  match sentiments with
  | _ :: _ =>
      let (labels, values) := List.split sentiments in
      let fig := mkFigure values labels "%1.0f%%" 90 true in
      _ <~ (fun w => (w, render fig)) ;;
      st (StPyplot fig)
  | [] => ret tt
  end.

(** The body of the [try]. *)
Definition analysis (user_input : text) (uploaded_file : option UploadedFile)
    : prog unit :=
  let image_uploaded := match uploaded_file with Some _ => true | None => false end in
  let image_data :=
    match uploaded_file with
    | Some f => Some (input_image_setup f)
    | None => None
    end in
  response <~ get_gemini_response user_input image_data gemini_prompt image_uploaded ;;
  _ <~ st (StSubheader "🧾 AI Mental Health Sentiment Report") ;;
  _ <~ st (StWrite response) ;;
  _ <~ st (StSubheader "📊 Risk Assessment") ;;
  risk_score <~ lift (parse_risk_score response) ;;
  _ <~ st_markdowns (display_risk_level risk_score) ;;
  sentiments <~ lift (parse_sentiments response) ;;
  _ <~ match sentiments with
       | _ :: _ =>
           _ <~ st (StSubheader "📉 Emotion Sentiment Breakdown") ;;
           plot_emotion_pie sentiments
       | [] => ret tt
       end ;;
  pdf_report <~ lift (generate_pdf_report rows_per_page (pystr_of response)) ;;
  st (StDownloadButton "📥 Download Full Report as PDF" pdf_report
        "mental_health_report.pdf").

(** One run of the script: the text area holds [user_input], the
    uploader holds [uploaded_file], and the button was clicked or not. *)
Definition run (user_input : text) (uploaded_file : option UploadedFile)
    (clicked : bool) (w : world) : world :=
  let w :=
    match uploaded_file with
    | Some f => fst (st (StImage f "Uploaded Image") w)
    | None => w
    end in
  if clicked then
    match strip user_input, uploaded_file with
    | [], None =>
        fst (st (StWarning "Please provide text input or upload an image to analyze.") w)
    | _, _ =>
        match analysis user_input uploaded_file w with
        | (w', Returned _) => w'
        | (w', Thrown e) => fst (st (StError e) w')
        end
    end
  else w.

End Session.

(** Vocabulary of the statements about a session. *)

(** The request a run sends: the text as typed, the image when one is
    uploaded, the prompt last. *)
Definition session_request (gemini_prompt user_input : text)
    (uploaded_file : option UploadedFile) : request :=
  mkRequest "gemini-1.5-flash"
    (CText user_input
     :: match uploaded_file with
        | Some f => [CImage (mkImagePart (file_type f) (file_bytes f))]
        | None => []
        end
     ++ [CText gemini_prompt]).

(** Neither a text (blank apart) nor an image is supplied. *)
Definition nothing_supplied (user_input : text)
    (uploaded_file : option UploadedFile) : bool :=
  match strip user_input, uploaded_file with
  | [], None => true
  | _, _ => false
  end.

(** The preview of the upload, shown on every run. *)
Definition preview (uploaded_file : option UploadedFile) : list widget :=
  match uploaded_file with
  | Some f => [StImage f "Uploaded Image"]
  | None => []
  end.

(** The report and the risk assessment of a reply. *)
Definition report_widgets (response : text) : list widget :=
  [StSubheader "🧾 AI Mental Health Sentiment Report";
   StWrite response;
   StSubheader "📊 Risk Assessment"]
  ++ map StMarkdown (display_risk_level (Spec.extractRiskScore response) []).

Definition sentiment_figure (d : dict) : figure :=
  mkFigure (dict_values d) (dict_keys d) "%1.0f%%" 90 true.

Definition chart_heading : widget := StSubheader "📉 Emotion Sentiment Breakdown".

Definition download_widget (report : list (list row)) : widget :=
  StDownloadButton "📥 Download Full Report as PDF" report
    "mental_health_report.pdf".

(** * Properties *)

(** ** Characters *)

Lemma digit_not_newline c : is_digit c = true -> Ascii.eqb c newline = false.
Proof.
  destruct c as [[] [] [] [] [] [] [] []]; vm_compute; congruence.
Qed.

Lemma digit_val_range c : is_digit c = true -> (0 <= digit_val c <= 9)%Z.
Proof.
  unfold is_digit, digit_val. intros H.
  apply andb_true_iff in H as [H1 H2].
  apply Nat.leb_le in H1, H2. lia.
Qed.

Lemma text_eqb_eq a b : text_eqb a b = true <-> a = b.
Proof.
  unfold text_eqb. destruct (list_eq_dec ascii_dec a b); split; congruence.
Qed.

Lemma text_eqb_refl a : text_eqb a a = true.
Proof. now apply text_eqb_eq. Qed.

(** ** Decimal values *)

Lemma digits_value_snoc ds c :
  digits_value (ds ++ [c]) = (10 * digits_value ds + digit_val c)%Z.
Proof.
  unfold digits_value. now rewrite fold_left_app.
Qed.

Lemma digits_value_nonneg ds :
  forallb is_digit ds = true -> (0 <= digits_value ds)%Z.
Proof.
  induction ds as [|c ds IH] using rev_ind; intros H.
  - now cbv.
  - rewrite digits_value_snoc. rewrite forallb_app in H.
    apply andb_true_iff in H as [H1 H2]. simpl in H2.
    rewrite andb_true_r in H2. apply digit_val_range in H2.
    specialize (IH H1). lia.
Qed.

Lemma py_int_digits ds :
  ds <> [] -> forallb is_digit ds = true ->
  py_int ds =
  if (Z.of_nat (length ds) <=? int_max_str_digits)%Z
  then Ok (digits_value ds) else Raise ValueError.
Proof.
  intros Hne Hd. unfold py_int. destruct ds; [congruence|]. now rewrite Hd.
Qed.

(** ** Risk presenter *)

Lemma contains_suffix_of_prefix (a b c : text) : contains (b ++ c) (a ++ b ++ c).
Proof. exists a, []. now rewrite app_nil_r. Qed.

Lemma classify_high score : classify score = HIGH <-> (67 <= score)%Z.
Proof.
  unfold classify.
  destruct (67 <=? score)%Z eqn:E.
  - apply Z.leb_le in E. tauto.
  - apply Z.leb_gt in E.
    destruct ((34 <=? score) && (score <=? 66))%Z; split; (discriminate || lia).
Qed.

Lemma classify_moderate score : classify score = MODERATE <-> (34 <= score <= 66)%Z.
Proof.
  unfold classify.
  destruct (67 <=? score)%Z eqn:E.
  - apply Z.leb_le in E. split; (discriminate || lia).
  - apply Z.leb_gt in E.
    destruct ((34 <=? score) && (score <=? 66))%Z eqn:F.
    + apply andb_true_iff in F as [F1 F2].
      apply Z.leb_le in F1, F2. split; auto.
    + apply andb_false_iff in F as [F|F]; apply Z.leb_gt in F;
        split; (discriminate || lia).
Qed.

Lemma classify_low score : classify score = LOW <-> (score <= 33)%Z.
Proof.
  unfold classify.
  destruct (67 <=? score)%Z eqn:E.
  - apply Z.leb_le in E. split; (discriminate || lia).
  - apply Z.leb_gt in E.
    destruct ((34 <=? score) && (score <=? 66))%Z eqn:F.
    + apply andb_true_iff in F as [F1 F2].
      apply Z.leb_le in F1, F2. split; (discriminate || lia).
    + apply andb_false_iff in F as [F|F]; apply Z.leb_gt in F;
        split; auto; lia.
Qed.

(** The banner is the heading of the tier with the score in it, and the
    crisis link after it exactly in the HIGH tier: [classify] is the
    branch that [display_risk_level] takes. *)
Lemma display_risk_level_classify score p :
  display_risk_level score p =
  p ++ (tier_heading (classify score) ++ str_int score ++ text_of "/100)")
    :: match classify score with HIGH => [crisis_link] | _ => [] end.
Proof.
  unfold display_risk_level, classify, st_markdown.
  destruct (67 <=? score)%Z.
  - now rewrite <- app_assoc.
  - now destruct ((34 <=? score) && (score <=? 66))%Z.
Qed.



Lemma tier_blocks_inj t t' score :
  tier_blocks t score = tier_blocks t' score -> t = t'.
Proof.
  destruct t, t'; intros H; try reflexivity; discriminate H.
Qed.

Lemma display_risk_level_blocks score p t :
  display_risk_level score p = p ++ tier_blocks t score <-> classify score = t.
Proof.
  rewrite display_risk_level_classify.
  fold (tier_blocks (classify score) score). split.
  - intros H. apply app_inv_head in H. now apply tier_blocks_inj in H.
  - now intros ->.
Qed.

(** C2. For a score in [0,100], [display_risk_level] writes the banner of
    exactly one of the three tiers: the Low banner exactly on [0,33], the
    Moderate banner exactly on [34,66] and the High banner (with the
    crisis link) exactly on [67,100]; the ranges meet at 33/34 and 66/67
    without gap or overlap. *)
Theorem display_risk_level_partitions_the_scale :
  forall (s : Z) (p : page),
    (0 <= s <= 100)%Z ->
    (display_risk_level s p = p ++ tier_blocks LOW s <-> (0 <= s <= 33)%Z) /\
    (display_risk_level s p = p ++ tier_blocks MODERATE s <-> (34 <= s <= 66)%Z) /\
    (display_risk_level s p = p ++ tier_blocks HIGH s <-> (67 <= s <= 100)%Z) /\
    exists tier,
      display_risk_level s p = p ++ tier_blocks tier s /\
      forall tier', display_risk_level s p = p ++ tier_blocks tier' s -> tier' = tier.
Proof.
  intros s p Hs.
  rewrite !display_risk_level_blocks.
  pose proof (classify_low s). pose proof (classify_moderate s).
  pose proof (classify_high s).
  repeat split; intros; try tauto; try lia.
  exists (classify s). split.
  - now apply display_risk_level_blocks.
  - intros tier' E. apply display_risk_level_blocks in E. now symmetry.
Qed.

Lemma display_risk_level_partitions_the_scale_witness :
  (0 <= 33 <= 100)%Z /\
  (display_risk_level 33 [] = [] ++ tier_blocks LOW 33 <-> (0 <= 33 <= 33)%Z) /\
  (display_risk_level 33 [] = [] ++ tier_blocks MODERATE 33 <-> (34 <= 33 <= 66)%Z) /\
  (display_risk_level 33 [] = [] ++ tier_blocks HIGH 33 <-> (67 <= 33 <= 100)%Z) /\
  exists tier,
    display_risk_level 33 [] = [] ++ tier_blocks tier 33 /\
    forall tier', display_risk_level 33 [] = [] ++ tier_blocks tier' 33 -> tier' = tier.
Proof.
  split; [lia | apply (display_risk_level_partitions_the_scale 33 []); lia].
Defined.

Example banners_at_the_boundaries :
  display_risk_level 33 [] = [text_of "### 🟢 Low Risk (33/100)"] /\
  display_risk_level 34 [] = [text_of "### 🟠 Moderate Risk (34/100)"] /\
  display_risk_level 66 [] = [text_of "### 🟠 Moderate Risk (66/100)"] /\
  display_risk_level 67 [] = [text_of "### 🔴 High Risk (67/100)"; crisis_link].
Proof. repeat split; reflexivity. Qed.

Example classify_boundaries :
  map classify [0; 33; 34; 66; 67; 100]%Z = [LOW; LOW; MODERATE; MODERATE; HIGH; HIGH].
Proof. reflexivity. Qed.

(** ** The matcher *)

Lemma consumed_skipn n (s : text) : n <= length s -> consumed s (skipn n s) = firstn n s.
Proof.
  intros H. unfold consumed. rewrite length_skipn.
  f_equal. lia.
Qed.

Lemma span_app p s : fst (span p s) ++ snd (span p s) = s.
Proof.
  induction s as [|c s IH]; simpl; auto.
  destruct (p c); simpl; auto.
  destruct (span p s); simpl in *. now rewrite IH.
Qed.

Lemma span_all p s : forallb p (fst (span p s)) = true.
Proof.
  induction s as [|c s IH]; simpl; auto.
  destruct (p c) eqn:E; simpl; auto.
  destruct (span p s); simpl in *. now rewrite E.
Qed.

Lemma consumed_span p s : consumed s (snd (span p s)) = fst (span p s).
Proof.
  unfold consumed.
  rewrite <- (span_app p s) at 1 3.
  rewrite length_app, Nat.add_sub.
  now rewrite firstn_app, Nat.sub_diag, firstn_all, app_nil_r.
Qed.

Lemma starts_with_length ic w s : starts_with ic w s = true -> length w <= length s.
Proof.
  revert s; induction w as [|c w IH]; intros [|d s] H; simpl in *; try lia; try discriminate.
  apply andb_true_iff in H as [_ H]. apply IH in H. lia.
Qed.

Lemma starts_with_lower w s :
  starts_with true w s = true -> lower (firstn (length w) s) = lower w.
Proof.
  revert s; induction w as [|c w IH]; intros [|d s] H; simpl in *; try discriminate; auto.
  apply andb_true_iff in H as [H1 H2].
  apply Ascii.eqb_eq in H1. rewrite H1. f_equal. now apply IH.
Qed.

Lemma lower_starts_with w s :
  length w <= length s -> lower (firstn (length w) s) = lower w -> starts_with true w s = true.
Proof.
  revert s; induction w as [|c w IH]; intros [|d s] L H; simpl in *; auto; try lia.
  injection H as H1 H2.
  rewrite H1, Ascii.eqb_refl. simpl. apply IH; auto. lia.
Qed.

Section MatcherFacts.

Variable ic : bool.
Variable A : Type.

Lemma rmatch_word w s g (k : text -> groups -> option A) :
  rmatch ic (word w) s g k =
  if starts_with ic w s then k (skipn (length w) s) g else None.
Proof.
  revert s; induction w as [|c w IH]; intros s; [reflexivity|].
  destruct s as [|d s]; [reflexivity|].
  change (rmatch ic (word (c :: w)) (d :: s) g k)
    with (if cmatch ic (CLit c) d then rmatch ic (word w) s g k else None).
  change (starts_with ic (c :: w) (d :: s))
    with (cmatch ic (CLit c) d && starts_with ic w s).
  destruct (cmatch ic (CLit c) d); [apply IH | reflexivity].
Qed.

(** A success of the lazy star is a success of the rest of the pattern
    after some characters of the class. *)
Lemma lazy_star_sound cl s (k : text -> option A) a :
  lazy_star ic cl s k = Some a ->
  exists i, i <= length s /\ forallb (cmatch ic cl) (firstn i s) = true /\
            k (skipn i s) = Some a.
Proof.
  induction s as [|c s IH]; simpl.
  - destruct (k []) eqn:E; [|discriminate].
    intros [= <-]. exists 0. auto.
  - destruct (k (c :: s)) eqn:E.
    + intros [= <-]. exists 0. simpl. auto with arith.
    + destruct (cmatch ic cl c) eqn:C; [|discriminate].
      intros H. destruct (IH H) as (i & L & F & K).
      exists (S i). simpl. rewrite C. split; [lia|auto].
Qed.

(** A success of the greedy repetition is a success of the rest of the
    pattern after at least [lo] characters of the class. *)
Lemma greedy_sound cl lo hi s (k : text -> option A) a :
  greedy ic cl lo hi s k = Some a ->
  exists i, lo <= i <= length s /\
            match hi with Some h => i <= h | None => True end /\
            forallb (cmatch ic cl) (firstn i s) = true /\
            k (skipn i s) = Some a.
Proof.
  revert lo hi; induction s as [|c s IH]; intros lo hi; simpl.
  - destruct lo; [|discriminate]. intros H. exists 0. simpl.
    repeat split; auto. destruct hi; auto with arith.
  - assert (Stop : match lo with 0 => k (c :: s) | S _ => None end = Some a ->
                   exists i, lo <= i <= length (c :: s) /\
                     match hi with Some h => i <= h | None => True end /\
                     forallb (cmatch ic cl) (firstn i (c :: s)) = true /\
                     k (skipn i (c :: s)) = Some a).
    { destruct lo; [|discriminate]. intros H. exists 0. simpl.
      repeat split; auto with arith. destruct hi; auto with arith. }
    destruct (cmatch ic cl c && room hi) eqn:C; auto.
    apply andb_true_iff in C as [C R].
    destruct (greedy ic cl (pred lo) (option_map pred hi) s k) eqn:G; auto.
    intros [= <-]. destruct (IH _ _ G) as (i & L & H & F & K).
    exists (S i). simpl. rewrite C. repeat split; auto; try lia.
    destruct hi as [[|h]|]; simpl in *; auto; try discriminate. lia.
Qed.

End MatcherFacts.

(** Every match that [findall] reports is a match of the pattern at some
    position of the text. *)
Lemma findall_from_In ic r n s g :
  In g (findall_from ic r n s) ->
  exists s' rest, re_match ic r s' = Some (rest, g).
Proof.
  revert n; induction s as [|c s IH]; intros n; simpl.
  - destruct n; simpl; [|tauto].
    destruct (re_match ic r []) as [[rest g']|] eqn:E; simpl; [|tauto].
    intros [<-|[]]. eauto.
  - destruct n; [|apply IH].
    destruct (re_match ic r (c :: s)) as [[rest g']|] eqn:E; simpl.
    + intros [<-|H]; eauto.
    + apply IH.
Qed.

Lemma findall_from_skip ic r (x s : text) :
  findall_from ic r (length x) (x ++ s) = findall_from ic r 0 s.
Proof.
  induction x as [|c x IH]; simpl; auto.
Qed.

(** When the pattern matches a non-empty stretch [x] at the start, the
    scan resumes right after it. *)
Lemma findall_match ic r (x rest : text) g :
  x <> [] ->
  re_match ic r (x ++ rest) = Some (rest, g) ->
  re_findall ic r (x ++ rest) = g :: re_findall ic r rest.
Proof.
  intros Hx M. unfold re_findall.
  destruct x as [|c x]; [congruence|].
  simpl app in *. simpl findall_from. rewrite M. f_equal.
  rewrite length_app, Nat.add_sub. apply findall_from_skip.
Qed.

Lemma findall_miss ic r c (s : text) :
  re_match ic r (c :: s) = None ->
  re_findall ic r (c :: s) = re_findall ic r s.
Proof.
  intros M. unfold re_findall. simpl. now rewrite M.
Qed.

(** ** The sentiment pattern *)

Lemma percent_literal c : cmatch true (CLit "%") c = Ascii.eqb c "%".
Proof.
  destruct c as [[] [] [] [] [] [] [] []]; reflexivity.
Qed.

Lemma digit_not_percent_sign c : is_digit c = true -> Ascii.eqb c "%" = false.
Proof.
  destruct c as [[] [] [] [] [] [] [] []]; vm_compute; congruence.
Qed.

(** [\d+] before something that no digit starts takes the whole run. *)
Lemma greedy_digits_run A ic (k : text -> option A) lo s :
  (forall c t, is_digit c = true -> k (c :: t) = None) ->
  greedy ic CDigit lo None s k =
  if (lo <=? length (fst (span is_digit s)))%nat then k (snd (span is_digit s)) else None.
Proof.
  intros Hk. revert lo; induction s as [|c s IH]; intros lo.
  - simpl. now destruct lo.
  - simpl greedy. simpl cmatch. simpl span.
    destruct (is_digit c) eqn:D; simpl andb; cbv iota.
    + rewrite IH. destruct (span is_digit s) as [a b]. simpl fst. simpl snd.
      simpl length.
      destruct lo as [|lo]; simpl pred.
      * simpl. rewrite (Hk c s D). now destruct (k b).
      * change (S lo <=? S (length a))%nat with (lo <=? length a)%nat.
        destruct (lo <=? length a)%nat; auto. now destruct (k b).
    + simpl. now destruct lo.
Qed.

Lemma percent_here_digits s ds rest :
  percent_here s = Some (ds, rest) ->
  ds <> [] /\ forallb is_digit ds = true /\ s = ds ++ "%"%char :: rest.
Proof.
  unfold percent_here.
  pose proof (span_all is_digit s) as Hall.
  pose proof (span_app is_digit s) as Happ.
  destruct (span is_digit s) as [[|d a] [|c b]]; try discriminate.
  destruct (Ascii.eqb c "%") eqn:E; [|discriminate].
  apply Ascii.eqb_eq in E. subst c.
  intros [= <- <-]. simpl in *. repeat split; auto. discriminate.
Qed.

Lemma percent_following_digits s ds rest :
  percent_following s = Some (ds, rest) ->
  ds <> [] /\ forallb is_digit ds = true.
Proof.
  induction s as [|c s IH]; cbn [percent_following].
  - discriminate.
  - destruct (percent_here (c :: s)) as [[a b]|] eqn:E.
    + intros [= <- <-]. apply percent_here_digits in E. tauto.
    + destruct (Ascii.eqb c newline); [discriminate | exact IH].
Qed.

(** The tail [.*?(\d+)%] of the pattern is the scan [percent_following]. *)
Lemma sentiment_tail s g :
  rmatch true (Cat (LazyStar CAny) (Cat (Group 2 (Greedy CDigit 1 None)) (Chr (CLit "%"))))
    s g (fun s' g' => Some (s', g')) =
  match percent_following s with
  | Some (ds, rest) => Some (rest, (2, ds) :: g)
  | None => None
  end.
Proof.
  cbn [rmatch].
  assert (K : forall s1,
    greedy true CDigit 1 None s1
      (fun s2 => match s2 with
                 | [] => None
                 | c :: s3 =>
                     if cmatch true (CLit "%") c
                     then Some (s3, set_group 2 (consumed s1 s2) g) else None
                 end) =
    match percent_here s1 with
    | Some (ds, rest) => Some (rest, (2, ds) :: g)
    | None => None
    end).
  { intros s1. rewrite greedy_digits_run.
    - unfold percent_here. pose proof (consumed_span is_digit s1) as C.
      destruct (span is_digit s1) as [a b]. cbn [fst snd] in *. rewrite C.
      destruct a as [|d a], b as [|c b]; cbn [length Nat.leb]; auto.
      rewrite percent_literal. now destruct (Ascii.eqb c "%").
    - intros c t D. rewrite percent_literal. now rewrite digit_not_percent_sign. }
  induction s as [|c s IH]; cbn [lazy_star percent_following]; rewrite K.
  - now destruct (percent_here []) as [[a b]|].
  - destruct (percent_here (c :: s)) as [[a b]|]; auto.
    cbn [cmatch]. destruct (Ascii.eqb c newline); simpl; auto.
Qed.

Lemma lazy_star_ext A ic cl s (k1 k2 : text -> option A) :
  (forall t, k1 t = k2 t) -> lazy_star ic cl s k1 = lazy_star ic cl s k2.
Proof.
  intros E. induction s as [|c s IH]; simpl; rewrite E; auto.
  now rewrite IH.
Qed.

Lemma greedy_ext A ic cl lo hi s (k1 k2 : text -> option A) :
  (forall t, k1 t = k2 t) -> greedy ic cl lo hi s k1 = greedy ic cl lo hi s k2.
Proof.
  intros E. revert lo hi; induction s as [|c s IH]; intros lo hi; simpl; rewrite E; auto.
  now rewrite (IH (pred lo) (option_map pred hi)).
Qed.

(** The matcher only looks at what its continuation returns. *)
Lemma rmatch_ext A ic r :
  forall s g (k1 k2 : text -> groups -> option A),
    (forall t h, k1 t h = k2 t h) -> rmatch ic r s g k1 = rmatch ic r s g k2.
Proof.
  induction r; intros s g k1 k2 E; cbn [rmatch].
  - apply E.
  - destruct s; auto. now rewrite E.
  - apply IHr1. intros. now apply IHr2.
  - now rewrite (IHr1 s g k1 k2 E), (IHr2 s g k1 k2 E).
  - apply lazy_star_ext. intros. apply E.
  - apply greedy_ext. intros. apply E.
  - apply IHr. intros. apply E.
Qed.

Lemma re_match_sentiment s :
  re_match true sentiment_re s =
  orelse (try_label "Positive" s) (orelse (try_label "Neutral" s) (try_label "Negative" s)).
Proof.
  unfold re_match, sentiment_re.
  change (rmatch true (Cat ?a ?b) s [] ?k)
    with (rmatch true a s [] (fun s' g' => rmatch true b s' g' k)).
  rewrite (rmatch_ext _ _ _ _ _ _ _ sentiment_tail).
  cbn [rmatch]. rewrite !rmatch_word.
  unfold orelse, try_label, set_group.
  destruct (starts_with true "Positive" s) eqn:P;
  destruct (starts_with true "Neutral" s) eqn:N;
  destruct (starts_with true "Negative" s) eqn:G;
  rewrite ?(consumed_skipn _ s (starts_with_length _ _ _ P)),
          ?(consumed_skipn _ s (starts_with_length _ _ _ N)),
          ?(consumed_skipn _ s (starts_with_length _ _ _ G));
  reflexivity.
Qed.

Lemma try_label_sound w s rest g :
  In w canonical_labels ->
  try_label w s = Some (rest, g) ->
  exists lbl ds,
    g = [(2, ds); (1, lbl)] /\ is_label lbl /\ ds <> [] /\ forallb is_digit ds = true.
Proof.
  intros Hw. unfold try_label.
  destruct (starts_with true w s) eqn:W; [|discriminate].
  destruct (percent_following (skipn (length w) s)) as [[ds r]|] eqn:P; [|discriminate].
  intros [= <- <-]. exists (firstn (length w) s), ds.
  apply percent_following_digits in P as [P1 P2].
  repeat split; auto.
  exists w. split; auto. now apply starts_with_lower.
Qed.

(** A match of the sentiment pattern captures a label, in some letter
    case, and a non-empty run of digits. *)
Lemma re_match_sentiment_sound s rest g :
  re_match true sentiment_re s = Some (rest, g) ->
  exists lbl ds,
    g = [(2, ds); (1, lbl)] /\ is_label lbl /\ ds <> [] /\ forallb is_digit ds = true.
Proof.
  rewrite re_match_sentiment. unfold orelse.
  destruct (try_label "Positive" s) as [[r1 g1]|] eqn:P.
  { intros [= <- <-]. apply (try_label_sound _ _ _ _ (or_introl eq_refl) P). }
  destruct (try_label "Neutral" s) as [[r2 g2]|] eqn:N.
  { intros [= <- <-]. apply (try_label_sound _ _ _ _ (or_intror (or_introl eq_refl)) N). }
  intros G.
  apply (try_label_sound _ _ _ _ (or_intror (or_intror (or_introl eq_refl))) G).
Qed.

Lemma findall_pairs_sentiment t label score :
  In (label, score) (findall_pairs IGNORECASE sentiment_re t) ->
  is_label label /\ score <> [] /\ forallb is_digit score = true.
Proof.
  unfold findall_pairs, re_findall. intros H.
  apply in_map_iff in H as (g & E & H).
  apply findall_from_In in H as (s' & rest & M).
  apply re_match_sentiment_sound in M as (lbl & ds & -> & L & D1 & D2).
  cbn in E. injection E as <- <-. auto.
Qed.

(** ** The dictionary *)

Lemma dict_get_set k k0 v d :
  dict_get k (dict_set k0 v d) = if text_eqb k0 k then Some v else dict_get k d.
Proof.
  induction d as [|[k' v'] d IH]; simpl; auto.
  destruct (text_eqb k' k0) eqn:E; simpl.
  - apply text_eqb_eq in E. subst k'. now destruct (text_eqb k0 k).
  - rewrite IH. destruct (text_eqb k' k) eqn:F; auto.
    apply text_eqb_eq in F. subst k'.
    destruct (text_eqb k0 k) eqn:G; auto.
    apply text_eqb_eq in G. subst k0. rewrite text_eqb_refl in E. discriminate.
Qed.

Lemma dict_get_of k ms d :
  dict_get k (dict_of ms d) =
  match last_binding k ms with
  | Some v => Some v
  | None => dict_get k d
  end.
Proof.
  revert d; induction ms as [|[k0 v0] ms IH]; intros d; simpl; auto.
  unfold dict_of in *. simpl. rewrite IH.
  destruct (last_binding k ms); auto.
  rewrite dict_get_set. now destruct (text_eqb k0 k).
Qed.

Lemma dict_set_binding k v k0 v0 d :
  In (k, v) (dict_set k0 v0 d) -> (k, v) = (k0, v0) \/ In (k, v) d.
Proof.
  induction d as [|[k' v'] d IH]; simpl.
  - intros [[= <- <-]|[]]. auto.
  - destruct (text_eqb k' k0) eqn:E; simpl.
    + apply text_eqb_eq in E. subst k'. intros [[= <- <-]|H]; auto.
    + intros [H|H]; auto. apply IH in H. tauto.
Qed.

Lemma dict_of_binding k v ms d :
  In (k, v) (dict_of ms d) -> In (k, v) ms \/ In (k, v) d.
Proof.
  revert d; induction ms as [|[k0 v0] ms IH]; intros d; simpl; auto.
  unfold dict_of in *. simpl. intros H. apply IH in H as [H|H]; auto.
  apply dict_set_binding in H as [H|H]; auto.
Qed.

Lemma dict_comp_scored ms d :
  (forall label score, In (label, score) ms ->
     score <> [] /\ forallb is_digit score = true) ->
  dict_comp ms d =
  if within_limit ms then Ok (dict_of (scored ms) d) else Raise ValueError.
Proof.
  revert d; induction ms as [|[label score] ms IH]; intros d H; auto.
  destruct (H label score (or_introl eq_refl)) as [H1 H2].
  cbn [dict_comp within_limit forallb snd]. rewrite (py_int_digits _ H1 H2).
  destruct (Z.of_nat (length score) <=? int_max_str_digits)%Z; [|reflexivity].
  cbn [bind andb]. rewrite IH; [reflexivity|].
  intros l s' Hin. apply (H l s'). now right.
Qed.

(** [parse_sentiments] returns the dictionary of the matches in scan
    order when every score is within the limit of [int], and raises
    otherwise. *)
Lemma parse_sentiments_spec t :
  parse_sentiments t =
  if within_limit (findall_pairs IGNORECASE sentiment_re t)
  then Ok (dict_of (scored (findall_pairs IGNORECASE sentiment_re t)) [])
  else Raise ValueError.
Proof.
  unfold parse_sentiments. apply dict_comp_scored.
  intros label score H. now apply findall_pairs_sentiment in H.
Qed.

Lemma parse_sentiments_returned t d :
  parse_sentiments t = Ok d ->
  d = dict_of (scored (findall_pairs IGNORECASE sentiment_re t)) [].
Proof.
  rewrite parse_sentiments_spec.
  destruct (within_limit _); [|discriminate]. now intros [= <-].
Qed.

(** ** The risk pattern *)

Lemma digits_upto_prefix n s :
  firstn (length (digits_upto n s)) s = digits_upto n s.
Proof.
  revert s; induction n as [|n IH]; intros [|c s]; simpl; auto.
  destruct (is_digit c); simpl; auto. now rewrite IH.
Qed.

Lemma digits_upto_length n s : length (digits_upto n s) <= length s.
Proof.
  revert s; induction n as [|n IH]; intros [|c s]; simpl; auto with arith.
  destruct (is_digit c); simpl; auto with arith.
Qed.

Lemma digits_upto_all n s : forallb is_digit (digits_upto n s) = true.
Proof.
  revert s; induction n as [|n IH]; intros [|c s]; cbn [digits_upto forallb]; auto.
  destruct (is_digit c) eqn:D; cbn [forallb]; auto. rewrite D. apply IH.
Qed.

(** [\d{lo,h}] before something that always matches takes the digits
    that are there, [h] at most. *)
Lemma greedy_digits_upto A ic (k : text -> option A) lo h s :
  (forall t, k t <> None) ->
  greedy ic CDigit lo (Some h) s k =
  if (lo <=? length (digits_upto h s))%nat
  then k (skipn (length (digits_upto h s)) s) else None.
Proof.
  intros Hk. revert lo h; induction s as [|c s IH]; intros lo h.
  - simpl. destruct h, lo; reflexivity.
  - cbn [greedy cmatch].
    destruct h as [|h].
    { cbn [room]. rewrite andb_false_r. cbn. now destruct lo. }
    cbn [room option_map pred digits_upto]. rewrite andb_true_r.
    destruct (is_digit c) eqn:D; [|now destruct lo].
    rewrite IH. cbn [length skipn].
    destruct lo as [|lo]; cbn [pred Nat.leb].
    + destruct (k (skipn (length (digits_upto h s)) s)) eqn:E; auto.
      now apply Hk in E.
    + destruct (lo <=? length (digits_upto h s))%nat; auto.
      destruct (k (skipn (length (digits_upto h s)) s)) eqn:E; auto.
Qed.

Lemma digits_upto_bound n s : length (digits_upto n s) <= n.
Proof.
  revert s; induction n as [|n IH]; intros [|c s]; simpl; auto with arith.
  destruct (is_digit c); simpl; auto with arith.
Qed.

Lemma digits_following_digits s ds :
  Spec.digits_following s = Some ds -> ds <> [] /\ forallb is_digit ds = true.
Proof.
  induction s as [|c s IH]; simpl; [discriminate|].
  destruct (is_digit c) eqn:D.
  - intros [= <-]. split; [discriminate|].
    simpl. rewrite D. apply (digits_upto_all 2 s).
  - destruct (Ascii.eqb c newline); [discriminate | exact IH].
Qed.

Lemma digits_following_short s ds :
  Spec.digits_following s = Some ds -> length ds <= 3.
Proof.
  revert ds; induction s as [|c s IH]; intros ds; cbn [Spec.digits_following];
    [discriminate|].
  destruct (is_digit c) eqn:D.
  - intros H. assert (E : ds = digits_upto 3 (c :: s)) by congruence.
    rewrite E. apply digits_upto_bound.
  - destruct (Ascii.eqb c newline); [discriminate | apply IH].
Qed.

(** The tail [.*?(\d{1,3})] of the pattern captures what
    [Spec.digits_following] reads. *)
Lemma risk_tail s g :
  option_map snd
    (rmatch true (Cat (LazyStar CAny) (Group 1 (Greedy CDigit 1 (Some 3))))
       s g (fun s' g' => Some (s', g'))) =
  option_map (fun ds => (1, ds) :: g) (Spec.digits_following s).
Proof.
  cbn [rmatch].
  assert (K : forall s1,
    greedy true CDigit 1 (Some 3) s1
      (fun s2 => Some (s2, set_group 1 (consumed s1 s2) g)) =
    match s1 with
    | c :: _ =>
        if is_digit c
        then Some (skipn (length (digits_upto 3 s1)) s1, (1, digits_upto 3 s1) :: g)
        else None
    | [] => None
    end).
  { intros s1. rewrite greedy_digits_upto by discriminate.
    rewrite consumed_skipn by apply digits_upto_length.
    rewrite digits_upto_prefix.
    destruct s1 as [|c s1]; [reflexivity|].
    cbn [digits_upto]. now destruct (is_digit c). }
  induction s as [|c s IH]; cbn [lazy_star Spec.digits_following]; rewrite K.
  - reflexivity.
  - destruct (is_digit c) eqn:D; [reflexivity|].
    cbn [cmatch]. destruct (Ascii.eqb c newline); [reflexivity | exact IH].
Qed.

Lemma risk_here_starts_with s : Spec.risk_here s = starts_with true "Risk" s.
Proof.
  unfold Spec.risk_here.
  destruct (starts_with true "Risk" s) eqn:E.
  - apply starts_with_lower in E. apply text_eqb_eq. exact E.
  - destruct (text_eqb (lower (firstn 4 s)) "risk") eqn:F; auto.
    apply text_eqb_eq in F. rewrite <- E. symmetry.
    apply lower_starts_with; [|exact F].
    apply (f_equal (@length ascii)) in F. unfold lower in F.
    rewrite length_map, length_firstn in F.
    change (length (text_of "risk")) with 4 in F.
    change (length (text_of "Risk")) with 4. lia.
Qed.

Lemma re_match_risk s :
  option_map (fun m => group 1 (snd m)) (re_match true risk_re s) =
  if Spec.risk_here s then Spec.digits_following (skipn 4 s) else None.
Proof.
  rewrite risk_here_starts_with. unfold re_match, risk_re.
  change (rmatch true (Cat ?a ?b) s [] ?k)
    with (rmatch true a s [] (fun s' g' => rmatch true b s' g' k)).
  rewrite rmatch_word.
  destruct (starts_with true "Risk" s); [|reflexivity].
  pose proof (risk_tail (skipn 4 s) []) as T.
  change (length (text_of "Risk")) with 4.
  destruct (rmatch true (Cat (LazyStar CAny) (Group 1 (Greedy CDigit 1 (Some 3))))
              (skipn 4 s) [] (fun s' g' => Some (s', g'))) as [[r g]|];
    destruct (Spec.digits_following (skipn 4 s)); simpl in T |- *;
    try discriminate; try reflexivity.
  injection T as ->. reflexivity.
Qed.

Lemma re_search_risk s :
  option_map (fun m => group 1 (snd m)) (re_search true risk_re s) =
  Spec.risk_digits s.
Proof.
  induction s as [|c s IH]; cbn [re_search Spec.risk_digits];
    rewrite <- re_match_risk.
  - now destruct (re_match true risk_re []).
  - now destruct (re_match true risk_re (c :: s)).
Qed.

Lemma risk_digits_digits s ds :
  Spec.risk_digits s = Some ds -> ds <> [] /\ forallb is_digit ds = true.
Proof.
  induction s as [|c s IH]; cbn [Spec.risk_digits].
  - destruct (Spec.risk_here []); [|discriminate].
    destruct (Spec.digits_following (skipn 4 [])) eqn:E; [|discriminate].
    intros [= <-]. now apply digits_following_digits in E.
  - destruct (if Spec.risk_here (c :: s)
              then Spec.digits_following (skipn 4 (c :: s)) else None) eqn:E.
    + intros [= <-]. destruct (Spec.risk_here (c :: s)); [|discriminate].
      now apply digits_following_digits in E.
    + exact IH.
Qed.

Lemma risk_digits_short s ds :
  Spec.risk_digits s = Some ds -> length ds <= 3.
Proof.
  induction s as [|c s IH]; cbn [Spec.risk_digits].
  - destruct (Spec.risk_here []); [|discriminate].
    destruct (Spec.digits_following (skipn 4 [])) eqn:E; [|discriminate].
    intros [= <-]. now apply digits_following_short in E.
  - destruct (if Spec.risk_here (c :: s)
              then Spec.digits_following (skipn 4 (c :: s)) else None) eqn:E.
    + intros [= <-]. destruct (Spec.risk_here (c :: s)); [|discriminate].
      now apply digits_following_short in E.
    + exact IH.
Qed.

(** [parse_risk_score] returns, and returns the score the specification
    describes. *)
Lemma parse_risk_score_spec t : parse_risk_score t = Ok (Spec.extractRiskScore t).
Proof.
  unfold parse_risk_score, Spec.extractRiskScore, IGNORECASE.
  pose proof (re_search_risk t) as S.
  pose proof (risk_digits_digits t) as D.
  pose proof (risk_digits_short t) as L.
  destruct (re_search true risk_re t) as [[r g]|];
    destruct (Spec.risk_digits t) as [ds|]; simpl in S; try discriminate; auto.
  injection S as S. rewrite S.
  destruct (D ds eq_refl) as [D1 D2].
  rewrite (py_int_digits _ D1 D2).
  specialize (L ds eq_refl).
  destruct (Z.leb_spec (Z.of_nat (length ds)) int_max_str_digits) as [_|B];
    [reflexivity|].
  unfold int_max_str_digits in B. lia.
Qed.

(** ** Texts of a known shape *)

Lemma lower_length s : length (lower s) = length s.
Proof. apply length_map. Qed.

Lemma lower_eq_length a b : lower a = lower b -> length a = length b.
Proof.
  intros H. apply (f_equal (@length ascii)) in H. now rewrite !lower_length in H.
Qed.

Lemma starts_with_firstn w s n :
  starts_with true w s = true -> n <= length w ->
  lower (firstn n s) = lower (firstn n w).
Proof.
  intros H L. apply starts_with_lower in H.
  apply (f_equal (firstn n)) in H. unfold lower in *.
  rewrite <- !firstn_map. rewrite <- H.
  rewrite <- firstn_map, firstn_firstn. f_equal. lia.
Qed.

(** At most one label is read at a given place. *)
Lemma labels_exclusive c c' s :
  In c canonical_labels -> In c' canonical_labels ->
  starts_with true c s = true -> starts_with true c' s = true -> c = c'.
Proof.
  intros Hc Hc' S1 S2.
  assert (L : 3 <= length c) by
    (destruct Hc as [<-|[<-|[<-|[]]]]; cbv; auto with arith).
  assert (L' : 3 <= length c') by
    (destruct Hc' as [<-|[<-|[<-|[]]]]; cbv; auto with arith).
  pose proof (starts_with_firstn _ _ 3 S1 L) as E1.
  pose proof (starts_with_firstn _ _ 3 S2 L') as E2.
  rewrite E1 in E2.
  destruct Hc as [<-|[<-|[<-|[]]]]; destruct Hc' as [<-|[<-|[<-|[]]]];
    try reflexivity; vm_compute in E2; discriminate.
Qed.

Lemma starts_with_label lbl c tail :
  lower lbl = lower c -> starts_with true c (lbl ++ tail) = true.
Proof.
  intros H. pose proof (lower_eq_length _ _ H) as L.
  apply lower_starts_with.
  - rewrite length_app. lia.
  - rewrite <- L, firstn_app, Nat.sub_diag, firstn_all. simpl.
    now rewrite app_nil_r.
Qed.

Lemma span_digits_sign ds post :
  forallb is_digit ds = true ->
  span is_digit (ds ++ "%"%char :: post) = (ds, "%"%char :: post).
Proof.
  induction ds as [|d ds IH]; intros H.
  - reflexivity.
  - simpl in H. apply andb_true_iff in H as [H1 H2].
    simpl. rewrite H1, (IH H2). reflexivity.
Qed.

Lemma gap_ok_cons c rest :
  gap_ok (c :: rest) = true ->
  Ascii.eqb c newline = false /\
  (is_digit c = true -> exists d r, rest = d :: r /\ Ascii.eqb d "%" = false) /\
  gap_ok rest = true.
Proof.
  change (gap_ok (c :: rest))
    with (negb (Ascii.eqb c newline)
          && (if is_digit c
              then match rest with
                   | [] => false
                   | d :: _ => negb (Ascii.eqb d "%")
                   end
              else true)
          && gap_ok rest).
  intros G.
  apply andb_true_iff in G as [G G3]. apply andb_true_iff in G as [G1 G2].
  apply negb_true_iff in G1. repeat split; auto.
  intros D. rewrite D in G2. destruct rest as [|d r]; [discriminate|].
  apply negb_true_iff in G2. eauto.
Qed.

(** A digit inside a gap starts a run that ends inside the gap, before
    something else than a percent sign. *)
Lemma span_in_gap c mid tail :
  gap_ok (c :: mid) = true -> is_digit c = true ->
  exists a d b, span is_digit ((c :: mid) ++ tail) = (a, d :: b) /\
                Ascii.eqb d "%" = false.
Proof.
  revert c; induction mid as [|d mid IH]; intros c G D;
    apply gap_ok_cons in G as (G1 & G2 & G3);
    destruct (G2 D) as (d' & r & E & F); [discriminate|].
  injection E as <- <-.
  change ((c :: d :: mid) ++ tail) with (c :: ((d :: mid) ++ tail)).
  cbn [span]. rewrite D.
  destruct (is_digit d) eqn:Dd.
  - destruct (IH d G3 Dd) as (a & e & b & E & F').
    rewrite E. eauto.
  - change ((d :: mid) ++ tail) with (d :: mid ++ tail).
    cbn [span]. rewrite Dd. eauto.
Qed.

Lemma percent_here_gap c mid tail :
  gap_ok (c :: mid) = true -> percent_here ((c :: mid) ++ tail) = None.
Proof.
  intros G. unfold percent_here.
  destruct (is_digit c) eqn:D.
  - destruct (span_in_gap c mid tail G D) as (a & d & b & E & F).
    rewrite E. destruct a; auto. now rewrite F.
  - simpl. now rewrite D.
Qed.

Lemma percent_following_gap mid ds post :
  gap_ok mid = true -> ds <> [] -> forallb is_digit ds = true ->
  percent_following (mid ++ ds ++ "%"%char :: post) = Some (ds, post).
Proof.
  intros G Hne Hd. induction mid as [|c mid IH].
  - simpl app. destruct ds as [|d ds]; [congruence|].
    assert (P : percent_here ((d :: ds) ++ "%"%char :: post) = Some (d :: ds, post)).
    { unfold percent_here. now rewrite (span_digits_sign _ _ Hd). }
    simpl app in *. simpl. now rewrite P.
  - pose proof (percent_here_gap c mid (ds ++ "%"%char :: post) G) as P.
    simpl app in *. cbn [percent_following]. rewrite P.
    apply gap_ok_cons in G as (G1 & _ & G3).
    rewrite G1. now apply IH.
Qed.

(** The pattern read at a label that is followed, across a gap, by a
    number and its percent sign. *)
Lemma re_match_sentiment_here lbl mid ds post :
  is_label lbl -> gap_ok mid = true -> ds <> [] -> forallb is_digit ds = true ->
  re_match true sentiment_re (lbl ++ mid ++ ds ++ "%"%char :: post) =
  Some (post, [(2, ds); (1, lbl)]).
Proof.
  intros (c & Hc & E) G Hne Hd.
  set (tail := mid ++ ds ++ "%"%char :: post).
  pose proof (starts_with_label lbl c tail E) as S.
  pose proof (lower_eq_length _ _ E) as L.
  assert (T : try_label c (lbl ++ tail) = Some (post, [(2, ds); (1, lbl)])).
  { unfold try_label. rewrite S, <- L.
    rewrite skipn_app, Nat.sub_diag, skipn_all, firstn_app, Nat.sub_diag, firstn_all.
    simpl. rewrite app_nil_r. unfold tail.
    now rewrite (percent_following_gap mid ds post G Hne Hd). }
  assert (O : forall c', In c' canonical_labels -> c' <> c ->
                         try_label c' (lbl ++ tail) = None).
  { intros c' Hc' N. unfold try_label.
    destruct (starts_with true c' (lbl ++ tail)) eqn:S'; auto.
    destruct N. apply (labels_exclusive c' c (lbl ++ tail)); auto. }
  rewrite re_match_sentiment. unfold orelse.
  destruct Hc as [<-|[<-|[<-|[]]]].
  - now rewrite T.
  - rewrite (O (text_of "Positive")), T; [reflexivity | cbv; auto | discriminate].
  - rewrite (O (text_of "Positive")), (O (text_of "Neutral")), T;
      [reflexivity | cbv; auto | discriminate | cbv; auto | discriminate].
Qed.

Lemma free_of_cons letters c pre :
  free_of letters (c :: pre) = true ->
  existsb (Ascii.eqb (to_lower c)) letters = false /\ free_of letters pre = true.
Proof.
  unfold free_of. simpl. intros H. apply andb_true_iff in H as [H1 H2].
  apply negb_true_iff in H1. auto.
Qed.

(** No sentiment match starts at a character that is neither P nor N. *)
Lemma re_match_sentiment_miss c s :
  existsb (Ascii.eqb (to_lower c)) (text_of "pn") = false ->
  re_match true sentiment_re (c :: s) = None.
Proof.
  intros H. simpl in H.
  apply orb_false_iff in H as [H1 H]. apply orb_false_iff in H as [H2 _].
  rewrite re_match_sentiment. unfold orelse, try_label.
  cbn [starts_with text_of list_ascii_of_string cmatch].
  change (to_lower "P") with "p"%char. change (to_lower "N") with "n"%char.
  now rewrite H1, H2.
Qed.

Lemma findall_sentiment_skip pre s :
  free_of "pn" pre = true ->
  re_findall true sentiment_re (pre ++ s) = re_findall true sentiment_re s.
Proof.
  induction pre as [|c pre IH]; intros F; auto.
  apply free_of_cons in F as [F1 F2].
  simpl app. rewrite findall_miss; auto.
  now apply re_match_sentiment_miss.
Qed.

(** The pairs [findall] reports on a text that has, after a stretch
    without P or N, a label, a gap, a number and its percent sign. *)
Lemma findall_pairs_shape pre lbl mid ds post :
  free_of "pn" pre = true -> is_label lbl -> gap_ok mid = true ->
  ds <> [] -> forallb is_digit ds = true ->
  findall_pairs IGNORECASE sentiment_re (pre ++ lbl ++ mid ++ ds ++ "%"%char :: post) =
  (lbl, ds) :: findall_pairs IGNORECASE sentiment_re post.
Proof.
  intros F Hl G Hne Hd. unfold findall_pairs, IGNORECASE.
  rewrite findall_sentiment_skip by exact F.
  pose proof (re_match_sentiment_here lbl mid ds post Hl G Hne Hd) as M.
  replace (lbl ++ mid ++ ds ++ "%"%char :: post)
    with ((lbl ++ mid ++ ds ++ ["%"%char]) ++ post) in *
    by now rewrite <- !app_assoc.
  assert (Hx : lbl ++ mid ++ ds ++ ["%"%char] <> []).
  { intros H. apply (f_equal (@length ascii)) in H.
    rewrite !length_app in H. simpl in H. lia. }
  rewrite (findall_match true sentiment_re _ post _ Hx M). reflexivity.
Qed.

Lemma digits_following_gap mid tail :
  risk_gap_ok mid = true ->
  Spec.digits_following (mid ++ tail) = Spec.digits_following tail.
Proof.
  unfold risk_gap_ok. induction mid as [|c mid IH]; intros G; auto.
  cbn [forallb] in G. apply andb_true_iff in G as [G G'].
  apply andb_true_iff in G as [G1 G2].
  apply negb_true_iff in G1, G2.
  simpl. rewrite G1, G2. now apply IH.
Qed.

Lemma risk_digits_unfold s :
  Spec.risk_digits s =
  match (if Spec.risk_here s then Spec.digits_following (skipn 4 s) else None) with
  | Some ds => Some ds
  | None =>
      match s with
      | _ :: s' => Spec.risk_digits s'
      | [] => None
      end
  end.
Proof. destruct s; reflexivity. Qed.

Lemma risk_here_miss c s :
  existsb (Ascii.eqb (to_lower c)) (text_of "r") = false ->
  Spec.risk_here (c :: s) = false.
Proof.
  intros H. simpl in H. rewrite orb_false_r in H.
  unfold Spec.risk_here.
  destruct (text_eqb _ _) eqn:E; auto.
  apply text_eqb_eq in E. simpl in E. injection E as E _.
  rewrite E in H. discriminate.
Qed.

Lemma risk_digits_skip pre s :
  free_of "r" pre = true -> Spec.risk_digits (pre ++ s) = Spec.risk_digits s.
Proof.
  induction pre as [|c pre IH]; intros F; auto.
  apply free_of_cons in F as [F1 F2].
  simpl app. rewrite risk_digits_unfold, (risk_here_miss _ _ F1). now apply IH.
Qed.

Lemma risk_digits_here rk tail ds :
  lower rk = lower "Risk" ->
  Spec.digits_following tail = Some ds ->
  Spec.risk_digits (rk ++ tail) = Some ds.
Proof.
  intros E D. pose proof (lower_eq_length _ _ E) as L.
  change (length (text_of "Risk")) with 4 in L.
  destruct rk as [|a [|b [|c [|d [|? ?]]]]]; try discriminate L.
  rewrite risk_digits_unfold. unfold Spec.risk_here.
  change (firstn 4 ([a; b; c; d] ++ tail)) with [a; b; c; d].
  change (skipn 4 ([a; b; c; d] ++ tail)) with tail.
  rewrite E, D. reflexivity.
Qed.

Lemma risk_digits_before pre tail :
  no_risk_number pre tail = true ->
  Spec.risk_digits (pre ++ tail) = Spec.risk_digits tail.
Proof.
  induction pre as [|c pre IH]; intros N; auto.
  change (no_risk_number (c :: pre) tail)
    with (negb (Spec.risk_here ((c :: pre) ++ tail)
                && match Spec.digits_following (skipn 4 ((c :: pre) ++ tail)) with
                   | Some _ => true
                   | None => false
                   end)
          && no_risk_number pre tail) in N.
  apply andb_true_iff in N as [N1 N2]. apply negb_true_iff in N1.
  rewrite risk_digits_unfold.
  destruct (Spec.risk_here ((c :: pre) ++ tail)).
  - destruct (Spec.digits_following (skipn 4 ((c :: pre) ++ tail)));
      [discriminate | now apply IH].
  - now apply IH.
Qed.

Lemma free_of_r_no_risk_number pre tail :
  free_of "r" pre = true -> no_risk_number pre tail = true.
Proof.
  induction pre as [|c pre IH]; intros F; auto.
  apply free_of_cons in F as [F1 F2].
  change (no_risk_number (c :: pre) tail)
    with (negb (Spec.risk_here ((c :: pre) ++ tail)
                && match Spec.digits_following (skipn 4 ((c :: pre) ++ tail)) with
                   | Some _ => true
                   | None => false
                   end)
          && no_risk_number pre tail).
  simpl app. rewrite (risk_here_miss _ _ F1). simpl. now apply IH.
Qed.

(** The score read from a text in which the first Risk that has a digit
    after it on its line is followed, after a gap, by that digit. *)
Lemma parse_risk_score_first pre rk mid d tail :
  no_risk_number pre (rk ++ mid ++ d :: tail) = true ->
  lower rk = lower "Risk" ->
  risk_gap_ok mid = true -> is_digit d = true ->
  parse_risk_score (pre ++ rk ++ mid ++ d :: tail) =
  Ok (clamp (digits_value (digits_upto 3 (d :: tail)))).
Proof.
  intros N E G D. rewrite parse_risk_score_spec. unfold Spec.extractRiskScore.
  rewrite (risk_digits_before _ _ N).
  rewrite (risk_digits_here rk (mid ++ d :: tail) (digits_upto 3 (d :: tail)) E);
    [reflexivity|].
  rewrite (digits_following_gap _ _ G). simpl. now rewrite D.
Qed.





(** ** The claims about the response parser *)




Example risk_score_of_the_template :
  parse_risk_score "... Risk Assessment Score: 72/100 ..." = Ok 72%Z /\
  parse_risk_score "nothing about risk" = Ok 0%Z /\
  parse_risk_score "Risk level: 150" = Ok 100%Z.
Proof. repeat split; reflexivity. Qed.

(** C4, as the program has it.  [parse_risk_score] returns a number on
    every text.  [parse_sentiments] returns a dictionary when every
    matched percentage is written with 4300 digits at most, and raises
    [ValueError] when one is longer.  A text in which the pattern is not
    found gives the empty dictionary and the score 0. *)
Theorem parsers_raise_only_past_the_digit_limit :
  forall t : text,
    (exists n, parse_risk_score t = Ok n) /\
    (within_limit (findall_pairs IGNORECASE sentiment_re t) = true ->
     exists d, parse_sentiments t = Ok d) /\
    (within_limit (findall_pairs IGNORECASE sentiment_re t) = false ->
     parse_sentiments t = Raise ValueError) /\
    (re_findall IGNORECASE sentiment_re t = [] -> parse_sentiments t = Ok []) /\
    (re_search IGNORECASE risk_re t = None -> parse_risk_score t = Ok 0%Z).
Proof.
  intros t. repeat split.
  - eexists. apply parse_risk_score_spec.
  - intros H. rewrite parse_sentiments_spec, H. eauto.
  - intros H. now rewrite parse_sentiments_spec, H.
  - intros H. unfold parse_sentiments, findall_pairs. now rewrite H.
  - intros H. unfold parse_risk_score. now rewrite H.
Qed.

Lemma parsers_raise_only_past_the_digit_limit_witness :
  within_limit (findall_pairs IGNORECASE sentiment_re "Positive 40%, Risk 7") = true /\
  (exists d, parse_sentiments "Positive 40%, Risk 7" = Ok d) /\
  (exists n, parse_risk_score "Positive 40%, Risk 7" = Ok n).
Proof.
  split; [reflexivity|]. split.
  - exact (proj1 (proj2
             (parsers_raise_only_past_the_digit_limit "Positive 40%, Risk 7")) eq_refl).
  - exact (proj1 (parsers_raise_only_past_the_digit_limit "Positive 40%, Risk 7")).
Defined.

(** C4 fails as stated: a percentage written with 4301 digits makes
    [int], and with it [parse_sentiments], raise. *)
Lemma long_percentage_raises :
  parse_sentiments (text_of "Positive " ++ repeat "1"%char 4301 ++ text_of "%") =
  Raise ValueError.
Proof. vm_compute. reflexivity. Qed.

Example sentiments_of_the_template :
  parse_sentiments "Positive: 40%, Neutral 20%, Negative: 40%" =
    Ok [(text_of "Positive", 40%Z); (text_of "Neutral", 20%Z); (text_of "Negative", 40%Z)] /\
  parse_sentiments "no sentiment info here" = Ok [].
Proof. split; reflexivity. Qed.

Lemma scored_binding k v ms :
  In (k, v) (scored ms) -> exists score, In (k, score) ms /\ v = digits_value score.
Proof.
  unfold scored. intros H. apply in_map_iff in H as ([l s] & E & H).
  simpl in E. injection E as <- <-. eauto.
Qed.

Lemma parsed_binding t k v :
  In (k, v) (dict_of (scored (findall_pairs IGNORECASE sentiment_re t)) []) ->
  exists score,
    In (k, score) (findall_pairs IGNORECASE sentiment_re t) /\ v = digits_value score.
Proof.
  intros H. apply dict_of_binding in H as [H|[]]. now apply scored_binding.
Qed.

Lemma last_binding_none k ms : ~ In k (map fst ms) -> last_binding k ms = None.
Proof.
  induction ms as [|[k' v] ms IH]; simpl; auto.
  intros H. rewrite IH by tauto.
  destruct (text_eqb k' k) eqn:E; auto.
  apply text_eqb_eq in E. tauto.
Qed.

Lemma last_binding_app k a b :
  last_binding k (a ++ b) =
  match last_binding k b with
  | Some v => Some v
  | None => last_binding k a
  end.
Proof.
  induction a as [|[k' v] a IH]; simpl.
  - now destruct (last_binding k b).
  - rewrite IH. now destruct (last_binding k b).
Qed.

(** C5, as the program has it.  Every key of a dictionary that
    [parse_sentiments] returns is the label as the text writes it: it
    spells Positive, Neutral or Negative in some letter case, and it is
    the first group of a match.  No other word becomes a key. *)
Theorem sentiment_keys_are_labels_as_written :
  forall (t : text) (d : dict),
    parse_sentiments t = Ok d ->
    forall k, In k (dict_keys d) ->
      is_label k /\ In k (map fst (findall_pairs IGNORECASE sentiment_re t)).
Proof.
  intros t d R k H. rewrite (parse_sentiments_returned _ _ R) in H.
  unfold dict_keys in H.
  apply in_map_iff in H as ([k' v] & E & H). simpl in E. subst k'.
  apply parsed_binding in H as (score & H & _).
  split.
  - now apply findall_pairs_sentiment in H.
  - apply in_map_iff. now exists (k, score).
Qed.

Lemma sentiment_keys_are_labels_as_written_witness :
  parse_sentiments "POSITIVE 5%, neutral 7%" =
    Ok [(text_of "POSITIVE", 5%Z); (text_of "neutral", 7%Z)] /\
  forall k,
    In k (dict_keys [(text_of "POSITIVE", 5%Z); (text_of "neutral", 7%Z)]) ->
    is_label k /\
    In k (map fst (findall_pairs IGNORECASE sentiment_re "POSITIVE 5%, neutral 7%")).
Proof.
  split; [reflexivity|].
  exact (sentiment_keys_are_labels_as_written "POSITIVE 5%, neutral 7%"
           [(text_of "POSITIVE", 5%Z); (text_of "neutral", 7%Z)] eq_refl).
Defined.

(** C5 fails as stated: a label written in lower case is kept in lower
    case, so the key is not one of the three canonical spellings. *)
Lemma lower_case_label_is_not_canonicalised :
  exists d,
    parse_sentiments "positive 5%" = Ok d /\
    In (text_of "positive") (dict_keys d) /\
    ~ In (text_of "positive") canonical_labels.
Proof.
  exists [(text_of "positive", 5%Z)]. split; [reflexivity|]. split.
  - now left.
  - intros [H|[H|[H|[]]]]; discriminate H.
Qed.

(** C6, as the program has it.  Every value of a dictionary that
    [parse_sentiments] returns is the number written by the digits of a
    match, a non-negative integer; it is not clamped. *)
Theorem sentiment_values_are_the_numbers_written :
  forall (t : text) (d : dict),
    parse_sentiments t = Ok d ->
    forall k v, In (k, v) d ->
      (0 <= v)%Z /\
      exists score,
        In (k, score) (findall_pairs IGNORECASE sentiment_re t) /\
        v = digits_value score.
Proof.
  intros t d R k v H. rewrite (parse_sentiments_returned _ _ R) in H.
  apply parsed_binding in H as (score & H & ->).
  split; [|eauto].
  apply findall_pairs_sentiment in H as (_ & _ & D).
  now apply digits_value_nonneg.
Qed.

Lemma sentiment_values_are_the_numbers_written_witness :
  parse_sentiments "Positive 150%, Neutral 0%" =
    Ok [(text_of "Positive", 150%Z); (text_of "Neutral", 0%Z)] /\
  forall k v,
    In (k, v) [(text_of "Positive", 150%Z); (text_of "Neutral", 0%Z)] ->
    (0 <= v)%Z /\
    exists score,
      In (k, score) (findall_pairs IGNORECASE sentiment_re "Positive 150%, Neutral 0%") /\
      v = digits_value score.
Proof.
  split; [reflexivity|].
  exact (sentiment_values_are_the_numbers_written "Positive 150%, Neutral 0%"
           [(text_of "Positive", 150%Z); (text_of "Neutral", 0%Z)] eq_refl).
Defined.

(** C6 fails as stated: a percentage above 100 in the text is returned as
    it is. *)
Lemma sentiment_value_above_100 :
  exists d,
    parse_sentiments "Positive 150%" = Ok d /\
    In 150%Z (dict_values d) /\
    ~ (0 <= 150 <= 100)%Z.
Proof.
  exists [(text_of "Positive", 150%Z)]. split; [reflexivity|]. split.
  - now left.
  - lia.
Qed.

(** C7, as the program has it.  A label is a key as it is spelled.  When
    a spelling is matched more than once, a returned dictionary binds it
    to the number of its last match: for the last pair of [findall] with
    a given spelling, whatever precedes it, the value under that key is
    the number of that pair. *)
Theorem last_occurrence_of_a_label_wins :
  forall (t : text) (d : dict) (before after : list (text * text))
         (label score : text),
    parse_sentiments t = Ok d ->
    findall_pairs IGNORECASE sentiment_re t = before ++ (label, score) :: after ->
    ~ In label (map fst after) ->
    dict_get label d = Some (digits_value score).
Proof.
  intros t d before after label score R E N.
  rewrite (parse_sentiments_returned _ _ R).
  rewrite dict_get_of, E. unfold scored. rewrite map_app, last_binding_app.
  cbn [map last_binding fst snd].
  rewrite last_binding_none, text_eqb_refl; [reflexivity|].
  rewrite map_map. simpl. exact N.
Qed.

Lemma last_occurrence_of_a_label_wins_witness :
  parse_sentiments "Positive 10%, Negative 5%, Positive 30%" =
    Ok [(text_of "Positive", 30%Z); (text_of "Negative", 5%Z)] /\
  findall_pairs IGNORECASE sentiment_re "Positive 10%, Negative 5%, Positive 30%" =
    [(text_of "Positive", text_of "10"); (text_of "Negative", text_of "5")]
    ++ (text_of "Positive", text_of "30") :: [] /\
  ~ In (text_of "Positive") (map fst (@nil (text * text))) /\
  dict_get "Positive" [(text_of "Positive", 30%Z); (text_of "Negative", 5%Z)] =
    Some 30%Z.
Proof.
  split; [reflexivity|]. split; [reflexivity|]. split; [simpl; tauto|].
  apply (last_occurrence_of_a_label_wins
           "Positive 10%, Negative 5%, Positive 30%"
           [(text_of "Positive", 30%Z); (text_of "Negative", 5%Z)]
           [(text_of "Positive", text_of "10"); (text_of "Negative", text_of "5")]
           [] "Positive" "30").
  - reflexivity.
  - reflexivity.
  - simpl. tauto.
Defined.

(** C7 fails as stated: the label Positive is matched twice, in two
    letter cases, and the key Positive keeps the number of its first
    match, 10, not of the last, 30, which goes under the key as spelled
    there. *)
Lemma other_letter_case_is_another_key :
  findall_pairs IGNORECASE sentiment_re "Positive 10%, positive 30%" =
    [(text_of "Positive", text_of "10"); (text_of "positive", text_of "30")] /\
  is_label "Positive" /\ lower "positive" = lower "Positive" /\
  parse_sentiments "Positive 10%, positive 30%" =
    Ok [(text_of "Positive", 10%Z); (text_of "positive", 30%Z)] /\
  dict_get "Positive" [(text_of "Positive", 10%Z); (text_of "positive", 30%Z)] =
    Some 10%Z.
Proof.
  split; [reflexivity|]. split.
  - exists (text_of "Positive"). split; [now left | reflexivity].
  - repeat split; reflexivity.
Qed.

Lemma findall_arrives ic r pre tail :
  forall skip,
    scan_arrives ic r skip pre tail = true ->
    exists before,
      findall_from ic r skip (pre ++ tail) = before ++ findall_from ic r 0 tail.
Proof.
  induction pre as [|c pre IH]; intros skip H.
  - simpl in H. apply Nat.eqb_eq in H. subst. now exists [].
  - destruct skip as [|n].
    + cbn [scan_arrives] in H. simpl app in *. cbn [findall_from].
      destruct (re_match ic r (c :: pre ++ tail)) as [[rest g]|].
      * destruct (IH _ H) as (before & E). exists (g :: before).
        simpl. now rewrite E.
      * apply (IH _ H).
    + cbn [scan_arrives] in H. simpl app. cbn [findall_from]. apply (IH _ H).
Qed.

(** C9, as the program has it.  Keyword and number are joined across any
    characters but a line feed, over the shortest span.  A label at which
    the left-to-right scan arrives (it does not lie inside an earlier
    match), followed on its line by a number and its percent sign, with
    no such number earlier in between, gives the pair of that label and
    that number, and a returned dictionary binds the label to it unless a
    later match of the same spelling replaces it.  The first Risk that
    has a digit after it on its line gives the score written by the
    digits there, three at most. *)
Theorem keyword_and_number_are_joined_within_a_line :
  forall (pre lbl rk mid ds post : text),
    ds <> [] ->
    forallb is_digit ds = true ->
    (scan_arrives IGNORECASE sentiment_re 0 pre
       (lbl ++ mid ++ ds ++ "%"%char :: post) = true ->
     is_label lbl -> gap_ok mid = true ->
       (exists before,
          findall_pairs IGNORECASE sentiment_re
            (pre ++ lbl ++ mid ++ ds ++ "%"%char :: post) =
          before ++ (lbl, ds) :: findall_pairs IGNORECASE sentiment_re post) /\
       forall d,
         parse_sentiments (pre ++ lbl ++ mid ++ ds ++ "%"%char :: post) = Ok d ->
         dict_get lbl d =
           Some (match last_binding lbl
                         (scored (findall_pairs IGNORECASE sentiment_re post)) with
                 | Some v => v
                 | None => digits_value ds
                 end)) /\
    (no_risk_number pre (rk ++ mid ++ ds ++ post) = true ->
     lower rk = lower "Risk" -> risk_gap_ok mid = true ->
       parse_risk_score (pre ++ rk ++ mid ++ ds ++ post) =
         Ok (clamp (digits_value (digits_upto 3 (ds ++ post))))).
Proof.
  intros pre lbl rk mid ds post Hne Hd. split.
  - intros A L G.
    assert (E : exists before,
      findall_pairs IGNORECASE sentiment_re
        (pre ++ lbl ++ mid ++ ds ++ "%"%char :: post) =
      before ++ (lbl, ds) :: findall_pairs IGNORECASE sentiment_re post).
    { destruct (findall_arrives _ _ _ _ _ A) as (before & E).
      exists (map (fun g => (group 1 g, group 2 g)) before).
      unfold findall_pairs, re_findall. rewrite E, map_app. f_equal.
      apply (findall_pairs_shape [] lbl mid ds post eq_refl L G Hne Hd). }
    split; [exact E|].
    intros d R. destruct E as (before & E).
    rewrite (parse_sentiments_returned _ _ R), dict_get_of, E.
    unfold scored at 1. rewrite map_app, last_binding_app.
    cbn [map last_binding fst snd].
    fold (scored (findall_pairs IGNORECASE sentiment_re post)).
    rewrite text_eqb_refl.
    now destruct (last_binding lbl (scored (findall_pairs IGNORECASE sentiment_re post))).
  - intros N E G. destruct ds as [|d ds]; [congruence|].
    simpl in Hd. apply andb_true_iff in Hd as [D _].
    apply (parse_risk_score_first pre rk mid d (ds ++ post) N E G D).
Qed.

Lemma keyword_and_number_are_joined_within_a_line_witness :
  text_of "45" <> [] /\
  forallb is_digit (text_of "45") = true /\
  scan_arrives IGNORECASE sentiment_re 0 "Sentiment: Positive 40%, "
    (text_of "NEGATIVE" ++ text_of " (3 of 4) -> " ++ text_of "45"
     ++ "%"%char :: text_of " more") = true /\
  is_label "NEGATIVE" /\ gap_ok " (3 of 4) -> " = true /\
  no_risk_number "Overall "
    (text_of "RISK" ++ text_of " -> " ++ text_of "45" ++ text_of " of 100") = true /\
  lower "RISK" = lower "Risk" /\ risk_gap_ok " -> " = true /\
  (exists before,
     findall_pairs IGNORECASE sentiment_re
       "Sentiment: Positive 40%, NEGATIVE (3 of 4) -> 45% more" =
     before ++ (text_of "NEGATIVE", text_of "45")
               :: findall_pairs IGNORECASE sentiment_re " more") /\
  parse_risk_score "Overall RISK -> 45 of 100" = Ok 45%Z.
Proof.
  assert (Hne : text_of "45" <> []) by discriminate.
  assert (Hd : forallb is_digit (text_of "45") = true) by reflexivity.
  assert (L : is_label "NEGATIVE").
  { exists (text_of "Negative"). split; [cbv; auto | reflexivity]. }
  do 2 (split; [assumption|]).
  split; [reflexivity|]. split; [exact L|].
  do 4 (split; [reflexivity|]).
  split.
  - exact (proj1 (proj1
      (keyword_and_number_are_joined_within_a_line
         "Sentiment: Positive 40%, " "NEGATIVE" "RISK" " (3 of 4) -> " "45" " more"
         Hne Hd)
      eq_refl L eq_refl)).
  - exact (proj2
      (keyword_and_number_are_joined_within_a_line
         "Overall " "NEGATIVE" "RISK" " -> " "45" " of 100" Hne Hd)
      eq_refl eq_refl eq_refl).
Defined.

(** C9 fails as stated.  A line feed between the keyword and its number
    stops both patterns, so nothing is extracted; a label that lies inside
    the match of an earlier label gives no pair, although a number and its
    percent sign follow it; and the digits after a second Risk are not
    captured once the first Risk has its own. *)
Lemma line_feed_separates_keyword_and_number :
  parse_sentiments (text_of "Positive" ++ newline :: text_of "40%") = Ok [] /\
  parse_risk_score (text_of "Risk" ++ newline :: text_of "72") = Ok 0%Z /\
  findall_pairs IGNORECASE sentiment_re "Positive Negative 40%" =
    [(text_of "Positive", text_of "40")] /\
  parse_risk_score "Risk 1, Risk 2" = Ok 1%Z.
Proof. repeat split; reflexivity. Qed.

(** C10. When the first digits reached after a Risk (no Risk before it
    has a digit after it on its line) are a run of four or more, only the
    first three are read, and the number they write is clamped: a year
    such as 2024 is read as 202 and gives 100. *)
Theorem long_digit_run_is_cut_to_three :
  forall (pre rk mid post : text) (d1 d2 d3 d4 : ascii),
    no_risk_number pre (rk ++ mid ++ d1 :: d2 :: d3 :: d4 :: post) = true ->
    lower rk = lower "Risk" ->
    risk_gap_ok mid = true ->
    forallb is_digit [d1; d2; d3; d4] = true ->
    parse_risk_score (pre ++ rk ++ mid ++ d1 :: d2 :: d3 :: d4 :: post) =
    Ok (clamp (digits_value [d1; d2; d3])).
Proof.
  intros pre rk mid post d1 d2 d3 d4 F E G D.
  cbn [forallb] in D.
  apply andb_true_iff in D as [D1 D]. apply andb_true_iff in D as [D2 D].
  apply andb_true_iff in D as [D3 _].
  rewrite (parse_risk_score_first pre rk mid d1 _ F E G D1).
  cbn [digits_upto]. now rewrite D1, D2, D3.
Qed.

Lemma long_digit_run_is_cut_to_three_witness :
  no_risk_number "Overall " (text_of "Risk" ++ text_of " ... " ++ text_of "2024") = true /\
  lower "Risk" = lower "Risk" /\
  risk_gap_ok " ... " = true /\
  forallb is_digit (text_of "2024") = true /\
  parse_risk_score "Overall Risk ... 2024" = Ok 100%Z.
Proof.
  do 4 (split; [reflexivity|]).
  exact (long_digit_run_is_cut_to_three "Overall " "Risk" " ... " "" "2" "0" "2" "4"
           eq_refl eq_refl eq_refl eq_refl).
Defined.

Example year_after_risk :
  parse_risk_score "Risk ... 2024" = Ok 100%Z.
Proof. reflexivity. Qed.

(** ** Strings *)

Section SplitFacts.

Context {A : Type}.
Variable is_sep : A -> bool.

Lemma split_by_nonempty s : split_by is_sep s <> [].
Proof.
  induction s as [|c s IH]; simpl; [discriminate|].
  destruct (is_sep c); [discriminate|].
  destruct (split_by is_sep s); [congruence | discriminate].
Qed.

(** A string has one piece more than it has separators. *)
Lemma split_by_length s :
  length (split_by is_sep s) = S (length (filter is_sep s)).
Proof.
  induction s as [|c s IH]; simpl; auto.
  destruct (is_sep c); simpl; [now rewrite IH|].
  pose proof (split_by_nonempty s).
  destruct (split_by is_sep s); [congruence | exact IH].
Qed.

Lemma split_by_no_sep s l c :
  In l (split_by is_sep s) -> In c l -> is_sep c = false.
Proof.
  revert l; induction s as [|d s IH]; simpl; intros l.
  - intros [<-|[]] [].
  - destruct (is_sep d) eqn:E.
    + intros [<-|H]; [intros [] | now apply IH].
    + destruct (split_by is_sep s) as [|l0 ls].
      * intros [<-|[]] [<-|[]]. exact E.
      * intros [<-|H].
        -- intros [<-|H]; [exact E|]. apply (IH l0); auto. now left.
        -- apply IH. now right.
Qed.

Lemma split_by_In s l c : In l (split_by is_sep s) -> In c l -> In c s.
Proof.
  revert l; induction s as [|d s IH]; simpl; intros l.
  - intros [<-|[]] [].
  - destruct (is_sep d).
    + intros [<-|H]; [intros [] | right; now apply (IH l)].
    + destruct (split_by is_sep s) as [|l0 ls].
      * intros [<-|[]] [<-|[]]. now left.
      * intros [<-|H].
        -- intros [<-|H]; [now left|]. right. apply (IH l0); auto. now left.
        -- intros H'. right. apply (IH l); auto. now right.
Qed.

Lemma join_split sep s :
  (forall c, is_sep c = true -> c = sep) ->
  join_by sep (split_by is_sep s) = s.
Proof.
  intros S. induction s as [|c s IH]; simpl; auto.
  pose proof (split_by_nonempty s) as NE.
  destruct (is_sep c) eqn:E.
  - apply S in E. subst c.
    destruct (split_by is_sep s) as [|l ls]; [congruence|].
    change (join_by sep ([] :: l :: ls)) with (sep :: join_by sep (l :: ls)).
    now rewrite IH.
  - destruct (split_by is_sep s) as [|l ls]; [congruence|].
    destruct ls as [|l' ls].
    + simpl in *. now rewrite IH.
    + change (join_by sep ((c :: l) :: l' :: ls))
        with (c :: join_by sep (l :: l' :: ls)).
      now rewrite IH.
Qed.

End SplitFacts.

Section StripFacts.

Context {A : Type}.
Variable is_sp : A -> bool.

Lemma lstrip_by_split s :
  exists ws, s = ws ++ lstrip_by is_sp s /\ forallb is_sp ws = true.
Proof.
  induction s as [|c s (ws & E & F)]; simpl.
  - now exists [].
  - destruct (is_sp c) eqn:C.
    + exists (c :: ws). simpl. rewrite C. split; [now f_equal | exact F].
    + now exists [].
Qed.

Lemma lstrip_by_head s c rest : lstrip_by is_sp s = c :: rest -> is_sp c = false.
Proof.
  induction s as [|d s IH]; simpl; [discriminate|].
  destruct (is_sp d) eqn:D; auto.
  intros [= <- _]. exact D.
Qed.

Lemma lstrip_by_spaces ws s :
  forallb is_sp ws = true -> lstrip_by is_sp (ws ++ s) = lstrip_by is_sp s.
Proof.
  induction ws as [|c ws IH]; simpl; auto.
  intros H. apply andb_true_iff in H as [H1 H2]. rewrite H1. auto.
Qed.

Lemma lstrip_by_all_spaces ws : forallb is_sp ws = true -> lstrip_by is_sp ws = [].
Proof.
  intros H. rewrite <- (app_nil_r ws). now rewrite lstrip_by_spaces.
Qed.

Lemma rstrip_by_split s :
  exists ws, s = rstrip_by is_sp s ++ ws /\ forallb is_sp ws = true.
Proof.
  unfold rstrip_by. destruct (lstrip_by_split (rev s)) as (ws & E & F).
  exists (rev ws). split.
  - rewrite <- rev_app_distr, <- E. now rewrite rev_involutive.
  - rewrite forallb_forall in *. intros x H. apply F. now apply in_rev.
Qed.

Lemma rstrip_by_last s front c : rstrip_by is_sp s = front ++ [c] -> is_sp c = false.
Proof.
  unfold rstrip_by. intros H.
  apply (f_equal (@rev A)) in H.
  rewrite rev_involutive, rev_app_distr in H. simpl in H.
  now apply lstrip_by_head in H.
Qed.

Lemma strip_by_In c s : In c (strip_by is_sp s) -> In c s.
Proof.
  unfold strip_by. intros H.
  destruct (rstrip_by_split (lstrip_by is_sp s)) as (ws & E & _).
  destruct (lstrip_by_split s) as (ws' & E' & _).
  rewrite E', E, !in_app_iff. tauto.
Qed.

Lemma strip_by_all_spaces ws : forallb is_sp ws = true -> strip_by is_sp ws = [].
Proof.
  intros H. unfold strip_by. now rewrite (lstrip_by_all_spaces _ H).
Qed.

Lemma strip_by_tight s : tight_by is_sp (strip_by is_sp s) = true.
Proof.
  unfold tight_by. destruct (strip_by is_sp s) as [|c rest] eqn:E; auto.
  apply andb_true_iff. split; apply negb_true_iff.
  - unfold strip_by in E.
    destruct (rstrip_by_split (lstrip_by is_sp s)) as (ws & E' & _).
    rewrite E in E'. simpl in E'. now apply lstrip_by_head in E'.
  - destruct (exists_last (l := c :: rest)) as (front & z & Ez); [discriminate|].
    rewrite Ez, last_last. unfold strip_by in E. rewrite Ez in E.
    now apply rstrip_by_last in E.
Qed.

Lemma tight_by_ends s :
  tight_by is_sp s = true ->
  s = [] \/ exists c front z, s = c :: front /\ is_sp c = false /\
                              rev s = z :: rev (removelast s) /\ is_sp z = false.
Proof.
  unfold tight_by. destruct s as [|c rest]; [now left|].
  intros H. apply andb_true_iff in H as [H1 H2].
  apply negb_true_iff in H1, H2. right.
  exists c, rest, (last (c :: rest) c). repeat split; auto.
  rewrite (app_removelast_last c (l := c :: rest)) at 1 by discriminate.
  now rewrite rev_app_distr.
Qed.

Lemma strip_by_core ws1 core ws2 :
  forallb is_sp ws1 = true -> forallb is_sp ws2 = true ->
  tight_by is_sp core = true -> strip_by is_sp (ws1 ++ core ++ ws2) = core.
Proof.
  intros F1 F2 T. unfold strip_by. rewrite lstrip_by_spaces by exact F1.
  destruct (tight_by_ends core T) as [->|(c & front & z & E & C & R & Z)].
  - simpl. rewrite (lstrip_by_all_spaces _ F2). reflexivity.
  - assert (L : lstrip_by is_sp (core ++ ws2) = core ++ ws2).
    { rewrite E. simpl. now rewrite C. }
    rewrite L. unfold rstrip_by. rewrite rev_app_distr.
    rewrite lstrip_by_spaces.
    + rewrite R. simpl. rewrite Z. rewrite <- R. apply rev_involutive.
    + rewrite forallb_forall in *. intros x H. apply F2. now apply in_rev.
Qed.

End StripFacts.

Lemma line_feed_count t :
  length (filter (N.eqb line_feed) t) = count_occ N.eq_dec t line_feed.
Proof.
  induction t as [|c t IH]; [reflexivity|].
  cbn [filter count_occ].
  destruct (N.eqb_spec line_feed c) as [E|E];
    destruct (N.eq_dec c line_feed); try congruence.
  cbn [length]. now rewrite IH.
Qed.

(** ** Report exporter *)

Lemma concat_removelast_last (A : Type) (l : list (list A)) :
  concat (removelast l) ++ last l [] = concat l.
Proof.
  induction l as [|x l IH]; auto.
  destruct l as [|y l].
  - simpl. now rewrite app_nil_r.
  - change (removelast (x :: y :: l)) with (x :: removelast (y :: l)).
    change (last (x :: y :: l) []) with (last (y :: l) []).
    simpl concat in *. now rewrite <- app_assoc, IH.
Qed.

Section WriterFacts.

Variable rows_per_page : nat.

Lemma rendered_rows_add_page pdf :
  rendered_rows (pages (add_page pdf)) = rendered_rows (pages pdf).
Proof.
  unfold rendered_rows, add_page. simpl.
  now rewrite concat_app, app_nil_r.
Qed.

Lemma rendered_rows_put_row r pdf :
  rendered_rows (pages (put_row r pdf)) = rendered_rows (pages pdf) ++ [r].
Proof.
  unfold rendered_rows, put_row, current_page. simpl.
  rewrite concat_app. simpl. rewrite app_nil_r, app_assoc.
  now rewrite concat_removelast_last.
Qed.

(** A cell adds its row after the rows written so far, on whichever page. *)
Lemma rendered_rows_cell w h txt pdf pdf' :
  cell rows_per_page w h txt pdf = Ok pdf' ->
  rendered_rows (pages pdf') = rendered_rows (pages pdf) ++ [mkRow h txt].
Proof.
  unfold cell. destruct (forallb encodable txt); [|discriminate].
  intros [= <-]. rewrite rendered_rows_put_row.
  destruct (rows_per_page <=? length (current_page pdf))%nat; auto.
  now rewrite rendered_rows_add_page.
Qed.

Lemma write_lines_rows lines :
  forall pdf pdf',
    write_lines rows_per_page lines pdf = Ok pdf' ->
    rendered_rows (pages pdf') =
    rendered_rows (pages pdf) ++ map (fun line => mkRow 10 (strip_cp line)) lines.
Proof.
  induction lines as [|line lines IH]; intros pdf pdf'; simpl.
  - intros [= <-]. now rewrite app_nil_r.
  - destruct (cell rows_per_page 0 10 (strip_cp line) pdf) as [pdf1|e] eqn:C;
      [|discriminate].
    simpl. intros W. rewrite (IH _ _ W), (rendered_rows_cell _ _ _ _ _ C).
    now rewrite <- app_assoc.
Qed.

(** The loop writes every line when each of them, stripped, can be
    encoded, and raises at the first that cannot. *)
Lemma write_lines_spec lines :
  forall pdf,
    if forallb (fun line => forallb encodable (strip_cp line)) lines
    then exists pdf', write_lines rows_per_page lines pdf = Ok pdf'
    else write_lines rows_per_page lines pdf = Raise EncodingError.
Proof.
  induction lines as [|line lines IH]; intros pdf; simpl.
  - eauto.
  - unfold cell. destruct (forallb encodable (strip_cp line)); simpl; [|reflexivity].
    apply IH.
Qed.

Lemma report_spec t :
  if encodable_lines t
  then exists doc, generate_pdf_report rows_per_page t = Ok doc
  else generate_pdf_report rows_per_page t = Raise EncodingError.
Proof.
  unfold generate_pdf_report, encodable_lines.
  pose proof (write_lines_spec (split_lines t)
                (set_font "Arial" 12 (add_page FPDF_new))) as W.
  destruct (forallb (fun line => forallb encodable (strip_cp line)) (split_lines t)).
  - destruct W as (pdf' & ->). simpl. eauto.
  - now rewrite W.
Qed.

Lemma report_rows t doc :
  generate_pdf_report rows_per_page t = Ok doc ->
  rendered_rows doc = map (fun line => mkRow 10 (strip_cp line)) (split_lines t).
Proof.
  unfold generate_pdf_report.
  destruct (write_lines rows_per_page (split_lines t)
              (set_font "Arial" 12 (add_page FPDF_new))) as [pdf'|e] eqn:W;
    [|discriminate].
  simpl. intros [= <-]. unfold output. now rewrite (write_lines_rows _ _ _ W).
Qed.

Lemma report_returned t doc :
  generate_pdf_report rows_per_page t = Ok doc -> encodable_lines t = true.
Proof.
  intros H. pose proof (report_spec t) as S.
  destruct (encodable_lines t); [reflexivity | congruence].
Qed.

Lemma pages_within_put_row r pdf :
  pages_within rows_per_page pdf -> length (current_page pdf) < rows_per_page ->
  pages_within rows_per_page (put_row r pdf).
Proof.
  unfold pages_within, put_row. simpl. intros H L.
  apply Forall_app. split.
  - destruct (pages pdf) as [|x l]; [constructor|].
    rewrite (app_removelast_last [] (l := x :: l)) in H by discriminate.
    now apply Forall_app in H.
  - constructor; [|constructor]. rewrite length_app. simpl. lia.
Qed.

Lemma pages_within_cell w h txt pdf pdf' :
  0 < rows_per_page -> pages_within rows_per_page pdf ->
  cell rows_per_page w h txt pdf = Ok pdf' ->
  pages_within rows_per_page pdf'.
Proof.
  intros C H. unfold cell.
  destruct (forallb encodable txt); [|discriminate]. intros [= <-].
  destruct (rows_per_page <=? length (current_page pdf))%nat eqn:E.
  - apply pages_within_put_row.
    + unfold pages_within, add_page. simpl.
      apply Forall_app. split; auto. constructor; [simpl; lia | constructor].
    + unfold current_page, add_page. simpl. rewrite last_last. simpl. lia.
  - apply Nat.leb_gt in E. now apply pages_within_put_row.
Qed.

Lemma pages_within_write_lines lines :
  forall pdf pdf',
    0 < rows_per_page -> pages_within rows_per_page pdf ->
    write_lines rows_per_page lines pdf = Ok pdf' ->
    pages_within rows_per_page pdf'.
Proof.
  induction lines as [|line lines IH]; intros pdf pdf' C H; simpl.
  - now intros [= <-].
  - destruct (cell rows_per_page 0 10 (strip_cp line) pdf) as [pdf1|e] eqn:E;
      [|discriminate].
    simpl. apply IH; auto. now apply (pages_within_cell _ _ _ _ _ C H E).
Qed.

(** With a positive capacity no page of a report holds more rows than
    the capacity. *)
Lemma report_pages_within t doc :
  0 < rows_per_page ->
  generate_pdf_report rows_per_page t = Ok doc ->
  Forall (fun pg => length pg <= rows_per_page) doc.
Proof.
  intros C. unfold generate_pdf_report.
  destruct (write_lines rows_per_page (split_lines t)
              (set_font "Arial" 12 (add_page FPDF_new))) as [pdf'|e] eqn:W;
    [|discriminate].
  simpl. intros [= <-].
  apply (pages_within_write_lines _ _ _ C) in W; auto.
  unfold pages_within. simpl. constructor; [simpl; lia | constructor].
Qed.

End WriterFacts.

Lemma encodable_text_lines t : forallb encodable t = true -> encodable_lines t = true.
Proof.
  intros H. unfold encodable_lines, split_lines, strip_cp.
  apply forallb_forall. intros line L.
  apply forallb_forall. intros c C.
  apply strip_by_In in C.
  rewrite forallb_forall in H. apply H.
  exact (split_by_In _ _ _ _ L C).
Qed.

Lemma pystr_of_encodable (t : text) : forallb encodable (pystr_of t) = true.
Proof.
  unfold pystr_of. rewrite forallb_forall. intros c H.
  apply in_map_iff in H as (a & <- & _).
  unfold encodable, code. apply N.ltb_lt.
  pose proof (nat_ascii_bounded a). lia.
Qed.

(** C8, as the program has it.  When every character of the text, the
    white space at the ends of a line apart, is one that the writer
    encodes, the exported document has exactly N rows for the N lines of
    the text, all of height 10; its i-th row holds the i-th line,
    stripped of leading and trailing white space; and every line's
    stripped text is in the document, whatever the capacity of a page.
    When a line holds another character the export raises and gives no
    document. *)
Theorem report_has_one_row_per_line :
  forall (rows_per_page : nat) (t : pystr),
    let lines := split_lines t in
    length lines = S (count_occ N.eq_dec t line_feed) /\
    (encodable_lines t = true ->
     exists doc,
       generate_pdf_report rows_per_page t = Ok doc /\
       let rows := rendered_rows doc in
       length rows = length lines /\
       (forall i line, nth_error lines i = Some line ->
                       nth_error rows i = Some (mkRow 10 (strip_cp line))) /\
       (forall line, In line lines -> In (strip_cp line) (map row_txt rows))) /\
    (encodable_lines t = false ->
     generate_pdf_report rows_per_page t = Raise EncodingError) /\
    (forallb encodable t = true -> encodable_lines t = true).
Proof.
  intros cap t lines. subst lines.
  pose proof (report_spec cap t) as S.
  split; [|split; [|split]].
  - unfold split_lines.
    etransitivity; [apply split_by_length | f_equal; apply line_feed_count].
  - intros E. rewrite E in S. destruct S as (doc & R).
    exists doc. split; [exact R|]. cbv zeta.
    rewrite (report_rows _ _ _ R). repeat split.
    + apply length_map.
    + intros i line H. rewrite nth_error_map, H. reflexivity.
    + intros line H. rewrite map_map. simpl.
      apply in_map_iff. now exists line.
  - intros E. now rewrite E in S.
  - apply encodable_text_lines.
Qed.

Lemma report_has_one_row_per_line_witness :
  encodable_lines (pystr_of "a " ++ line_feed :: pystr_of " b") = true /\
  exists doc,
    generate_pdf_report 1 (pystr_of "a " ++ line_feed :: pystr_of " b") = Ok doc /\
    length (rendered_rows doc) = 2 /\
    nth_error (rendered_rows doc) 0 = Some (mkRow 10 (pystr_of "a")) /\
    nth_error (rendered_rows doc) 1 = Some (mkRow 10 (pystr_of "b")).
Proof.
  split; [reflexivity|].
  destruct (report_has_one_row_per_line 1
              (pystr_of "a " ++ line_feed :: pystr_of " b")) as (_ & H & _).
  destruct (H eq_refl) as (doc & R & L & I & _).
  exists doc. split; [exact R|]. split; [rewrite L; reflexivity|]. split.
  - exact (I 0 (pystr_of "a ") eq_refl).
  - exact (I 1 (pystr_of " b") eq_refl).
Defined.

(** C8 fails as stated: a line with a character that the writer does not
    encode, here the apostrophe U+2019, makes the export raise, so the
    text has no document and no row. *)
Lemma export_fails_on_a_wide_character :
  generate_pdf_report 26 (pystr_of "It" ++ 8217%N :: pystr_of "s fine") =
  Raise EncodingError.
Proof. reflexivity. Qed.

Example report_of_three_lines :
  generate_pdf_report 2
    (pystr_of "a " ++ line_feed :: pystr_of "  b c  " ++ line_feed :: pystr_of "d") =
  Ok [[mkRow 10 (pystr_of "a"); mkRow 10 (pystr_of "b c")]; [mkRow 10 (pystr_of "d")]].
Proof. reflexivity. Qed.

(** * Further properties of the program *)

(** ** The dictionary of sentiments *)

Lemma text_eqb_sym a b : text_eqb a b = text_eqb b a.
Proof.
  destruct (text_eqb a b) eqn:E, (text_eqb b a) eqn:F; auto.
  - apply text_eqb_eq in E. subst. now rewrite text_eqb_refl in F.
  - apply text_eqb_eq in F. subst. now rewrite text_eqb_refl in E.
Qed.

Lemma existsb_text_In k l : existsb (text_eqb k) l = true <-> In k l.
Proof.
  rewrite existsb_exists. split.
  - intros (x & H & E). apply text_eqb_eq in E. now subst.
  - intros H. exists k. split; auto. apply text_eqb_refl.
Qed.

Lemma dict_keys_set k v d :
  dict_keys (dict_set k v d) =
  if existsb (text_eqb k) (dict_keys d) then dict_keys d else dict_keys d ++ [k].
Proof.
  unfold dict_keys. induction d as [|[k' v'] d IH]; simpl; auto.
  rewrite (text_eqb_sym k k').
  destruct (text_eqb k' k); simpl; auto.
  rewrite IH. now destruct (existsb (text_eqb k) (map fst d)).
Qed.

Lemma dict_set_length k v d : length (dict_set k v d) <= S (length d).
Proof.
  induction d as [|[k' v'] d IH]; simpl; auto.
  destruct (text_eqb k' k); simpl; lia.
Qed.

Lemma dict_of_length ms d : length (dict_of ms d) <= length d + length ms.
Proof.
  revert d; induction ms as [|m ms IH]; intros d; simpl; [lia|].
  unfold dict_of in *. simpl. specialize (IH (dict_set (fst m) (snd m) d)).
  pose proof (dict_set_length (fst m) (snd m) d). lia.
Qed.

Lemma first_seen_ext seen seen' ks :
  (forall k, In k seen <-> In k seen') -> first_seen seen ks = first_seen seen' ks.
Proof.
  revert seen seen'; induction ks as [|k ks IH]; intros seen seen' H; simpl; auto.
  assert (E : existsb (text_eqb k) seen = existsb (text_eqb k) seen').
  { destruct (existsb (text_eqb k) seen) eqn:A, (existsb (text_eqb k) seen') eqn:B; auto.
    - apply existsb_text_In, H, existsb_text_In in A. congruence.
    - apply existsb_text_In, H, existsb_text_In in B. congruence. }
  rewrite E. destruct (existsb (text_eqb k) seen'); [now apply IH|].
  f_equal. apply IH. intros x. simpl. now rewrite H.
Qed.

Lemma dict_of_keys ms d :
  dict_keys (dict_of ms d) = dict_keys d ++ first_seen (dict_keys d) (map fst ms).
Proof.
  revert d; induction ms as [|[k v] ms IH]; intros d.
  - simpl. now rewrite app_nil_r.
  - unfold dict_of in *. simpl fold_left. rewrite IH. simpl map. simpl first_seen.
    rewrite dict_keys_set.
    destruct (existsb (text_eqb k) (dict_keys d)); auto.
    rewrite <- app_assoc. simpl. do 2 f_equal.
    apply first_seen_ext. intros x. rewrite in_app_iff. simpl. tauto.
Qed.

Lemma last_binding_In k ms :
  last_binding k ms = None <-> ~ In k (map fst ms).
Proof.
  split; [|apply last_binding_none].
  induction ms as [|[k' v] ms IH]; simpl; [tauto|].
  destruct (last_binding k ms); [discriminate|].
  destruct (text_eqb k' k) eqn:E; [discriminate|].
  intros _ [H|H]; [|now apply IH].
  subst. now rewrite text_eqb_refl in E.
Qed.

(** X2. The keys of a dictionary that [parse_sentiments] returns stand in
    the order in which the text first writes them: a later match of a key
    already present changes its value, not its place. *)
Theorem sentiment_keys_in_order_of_first_appearance :
  forall (t : text) (d : dict),
    parse_sentiments t = Ok d ->
    dict_keys d =
      first_seen [] (map fst (findall_pairs IGNORECASE sentiment_re t)).
Proof.
  intros t d R. rewrite (parse_sentiments_returned _ _ R).
  rewrite dict_of_keys. simpl. unfold scored. rewrite map_map. reflexivity.
Qed.

Lemma sentiment_keys_in_order_of_first_appearance_witness :
  parse_sentiments "Negative 5%, Positive 10%, Negative 30%" =
    Ok [(text_of "Negative", 30%Z); (text_of "Positive", 10%Z)] /\
  dict_keys [(text_of "Negative", 30%Z); (text_of "Positive", 10%Z)] =
    first_seen []
      (map fst (findall_pairs IGNORECASE sentiment_re
                  "Negative 5%, Positive 10%, Negative 30%")).
Proof.
  split; [reflexivity|].
  exact (sentiment_keys_in_order_of_first_appearance
           "Negative 5%, Positive 10%, Negative 30%"
           [(text_of "Negative", 30%Z); (text_of "Positive", 10%Z)] eq_refl).
Defined.

(** X3. Looking a label up in a returned dictionary gives the number of
    the last match written with that label, and gives nothing exactly
    when the label, so written, is matched nowhere. *)
Theorem sentiment_lookup :
  forall (t label : text) (d : dict),
    parse_sentiments t = Ok d ->
    dict_get label d =
      last_binding label (scored (findall_pairs IGNORECASE sentiment_re t)) /\
    (dict_get label d = None <->
     ~ In label (map fst (findall_pairs IGNORECASE sentiment_re t))).
Proof.
  intros t label d R. rewrite (parse_sentiments_returned _ _ R).
  assert (E : dict_get label
                (dict_of (scored (findall_pairs IGNORECASE sentiment_re t)) []) =
              last_binding label (scored (findall_pairs IGNORECASE sentiment_re t))).
  { rewrite dict_get_of.
    now destruct (last_binding label (scored (findall_pairs IGNORECASE sentiment_re t))). }
  split; [exact E|].
  rewrite E, last_binding_In. unfold scored. rewrite map_map. reflexivity.
Qed.

Lemma sentiment_lookup_witness :
  parse_sentiments "Negative 5%, Positive 10%, Negative 30%" =
    Ok [(text_of "Negative", 30%Z); (text_of "Positive", 10%Z)] /\
  dict_get "Neutral" [(text_of "Negative", 30%Z); (text_of "Positive", 10%Z)] =
    last_binding "Neutral"
      (scored (findall_pairs IGNORECASE sentiment_re
                 "Negative 5%, Positive 10%, Negative 30%")) /\
  (dict_get "Neutral" [(text_of "Negative", 30%Z); (text_of "Positive", 10%Z)] = None <->
   ~ In (text_of "Neutral")
        (map fst (findall_pairs IGNORECASE sentiment_re
                    "Negative 5%, Positive 10%, Negative 30%"))).
Proof.
  split; [reflexivity|].
  exact (sentiment_lookup "Negative 5%, Positive 10%, Negative 30%" "Neutral"
           [(text_of "Negative", 30%Z); (text_of "Positive", 10%Z)] eq_refl).
Defined.

(** ** What the patterns need in order to match *)

Lemma percent_following_split s ds rest :
  percent_following s = Some (ds, rest) ->
  exists skipped, s = skipped ++ ds ++ "%"%char :: rest.
Proof.
  induction s as [|c s IH]; cbn [percent_following].
  - discriminate.
  - destruct (percent_here (c :: s)) as [[a b]|] eqn:E.
    + intros [= <- <-]. apply percent_here_digits in E as (_ & _ & E).
      now exists [].
    + destruct (Ascii.eqb c newline); [discriminate|].
      intros H. destruct (IH H) as (sk & ->). now exists (c :: sk).
Qed.

Lemma try_label_split w s rest g :
  try_label w s = Some (rest, g) -> exists x, s = x ++ "%"%char :: rest.
Proof.
  unfold try_label.
  destruct (starts_with true w s); [|discriminate].
  destruct (percent_following (skipn (length w) s)) as [[ds r]|] eqn:P; [|discriminate].
  intros [= <- <-]. apply percent_following_split in P as (sk & P).
  exists (firstn (length w) s ++ sk ++ ds).
  rewrite <- (firstn_skipn (length w) s) at 1. rewrite P.
  now rewrite <- !app_assoc.
Qed.

(** A match of the sentiment pattern ends right after a percent sign. *)
Lemma re_match_sentiment_split s rest g :
  re_match true sentiment_re s = Some (rest, g) ->
  exists x, s = x ++ "%"%char :: rest.
Proof.
  rewrite re_match_sentiment. unfold orelse.
  destruct (try_label "Positive" s) as [[r1 g1]|] eqn:P.
  { intros [= <- <-]. now apply try_label_split in P. }
  destruct (try_label "Neutral" s) as [[r2 g2]|] eqn:N.
  { intros [= <- <-]. now apply try_label_split in N. }
  apply try_label_split.
Qed.

Lemma findall_sentiment_count n :
  forall s, length s <= n ->
    length (re_findall true sentiment_re s) <= count_occ ascii_dec s "%"%char.
Proof.
  induction n as [|n IH]; intros s L.
  - destruct s; [cbv; lia | simpl in L; lia].
  - destruct s as [|c s]; [cbv; lia|].
    destruct (re_match true sentiment_re (c :: s)) as [[rest g]|] eqn:M.
    + destruct (re_match_sentiment_split _ _ _ M) as (x & E).
      assert (E' : c :: s = (x ++ ["%"%char]) ++ rest) by now rewrite <- app_assoc.
      rewrite E' in M |- *.
      rewrite (findall_match true sentiment_re (x ++ ["%"%char]) rest g);
        [|now destruct x|exact M].
      apply (f_equal (@length ascii)) in E'. rewrite !length_app in E'.
      simpl in E', L.
      assert (Lr : length rest <= n) by lia.
      specialize (IH rest Lr).
      rewrite !count_occ_app. simpl length. simpl count_occ.
      destruct (ascii_dec "%" "%"); [lia | congruence].
    + rewrite (findall_miss _ _ _ _ M).
      simpl in L. assert (Ls : length s <= n) by lia.
      specialize (IH s Ls). simpl count_occ.
      destruct (ascii_dec c "%"); lia.
Qed.

(** X4. A text never has more sentiment matches than percent signs:
    every match ends at a percent sign of its own.  A returned dictionary
    has no more entries than there are matches, and a text without a
    percent sign gives the empty dictionary. *)
Theorem sentiments_bounded_by_percent_signs :
  forall t : text,
    length (findall_pairs IGNORECASE sentiment_re t)
      <= count_occ ascii_dec t "%"%char /\
    (forall d, parse_sentiments t = Ok d ->
               length d <= length (findall_pairs IGNORECASE sentiment_re t)) /\
    (count_occ ascii_dec t "%"%char = 0 -> parse_sentiments t = Ok []).
Proof.
  intros t.
  assert (B : length (findall_pairs IGNORECASE sentiment_re t)
              <= count_occ ascii_dec t "%"%char).
  { unfold findall_pairs. rewrite length_map.
    apply (findall_sentiment_count (length t)). auto. }
  split; [exact B|]. split.
  - intros d R. rewrite (parse_sentiments_returned _ _ R).
    pose proof (dict_of_length (scored (findall_pairs IGNORECASE sentiment_re t)) []) as H.
    unfold scored in H at 2. rewrite length_map in H. exact H.
  - intros Z. rewrite Z in B. unfold parse_sentiments.
    destruct (findall_pairs IGNORECASE sentiment_re t); [reflexivity|].
    simpl in B. lia.
Qed.

Lemma sentiments_bounded_by_percent_signs_witness :
  count_occ ascii_dec (text_of "Positive mood, no number") "%"%char = 0 /\
  parse_sentiments "Positive mood, no number" = Ok [].
Proof.
  split; [reflexivity|].
  exact (proj2 (proj2
           (sentiments_bounded_by_percent_signs "Positive mood, no number")) eq_refl).
Defined.

Lemma digits_following_none s :
  forallb (fun c => negb (is_digit c)) s = true -> Spec.digits_following s = None.
Proof.
  induction s as [|c s IH]; simpl; auto.
  intros H. apply andb_true_iff in H as [H1 H2]. apply negb_true_iff in H1.
  rewrite H1. destruct (Ascii.eqb c newline); auto.
Qed.

Lemma forallb_skipn (A : Type) (p : A -> bool) n l :
  forallb p l = true -> forallb p (skipn n l) = true.
Proof.
  revert l; induction n as [|n IH]; intros [|a l] H; simpl; auto.
  simpl in H. apply andb_true_iff in H as [_ H]. now apply IH.
Qed.

Lemma risk_digits_no_digit s :
  forallb (fun c => negb (is_digit c)) s = true -> Spec.risk_digits s = None.
Proof.
  induction s as [|c s IH]; intros H; rewrite risk_digits_unfold.
  - now destruct (Spec.risk_here []).
  - rewrite (digits_following_none _ (forallb_skipn _ _ 4 _ H)).
    destruct (Spec.risk_here (c :: s)); apply IH;
      simpl in H; now apply andb_true_iff in H as [_ H].
Qed.

Lemma risk_digits_no_r s :
  free_of "r" s = true -> Spec.risk_digits s = None.
Proof.
  intros F. rewrite <- (app_nil_r s). now rewrite risk_digits_skip.
Qed.

(** X5. A text with no digit in it, or with no letter R in either case,
    has the score 0. *)
Theorem risk_score_needs_the_word_and_a_digit :
  forall t : text,
    forallb (fun c => negb (is_digit c)) t = true \/ free_of "r" t = true ->
    parse_risk_score t = Ok 0%Z.
Proof.
  intros t H. rewrite parse_risk_score_spec. unfold Spec.extractRiskScore.
  destruct H as [H|H].
  - now rewrite risk_digits_no_digit.
  - now rewrite risk_digits_no_r.
Qed.

Lemma risk_score_needs_the_word_and_a_digit_witness :
  (forallb (fun c => negb (is_digit c)) (text_of "High risk, see notes") = true \/
   free_of "r" "High risk, see notes" = true) /\
  parse_risk_score "High risk, see notes" = Ok 0%Z.
Proof.
  split; [left; reflexivity|].
  apply (risk_score_needs_the_word_and_a_digit "High risk, see notes").
  left. reflexivity.
Defined.

Lemma digits_upto_run n ds c post :
  forallb is_digit ds = true -> is_digit c = false ->
  digits_upto n (ds ++ c :: post) = firstn n ds.
Proof.
  revert ds; induction n as [|n IH]; intros ds Hd Hc.
  - now destruct ds.
  - destruct ds as [|d ds]; simpl.
    + now rewrite Hc.
    + simpl in Hd. apply andb_true_iff in Hd as [H1 H2].
      rewrite H1. f_equal. now apply IH.
Qed.

(** X6. The first match decides: once the first Risk that has a digit
    after it on its line has its number, ended by a character that is no
    digit, nothing written after it changes the score, not even another
    Risk with another number. *)
Theorem first_risk_number_wins :
  forall (pre rk mid ds post : text) (c : ascii),
    no_risk_number pre (rk ++ mid ++ ds ++ c :: post) = true ->
    lower rk = lower "Risk" ->
    risk_gap_ok mid = true ->
    ds <> [] ->
    forallb is_digit ds = true ->
    is_digit c = false ->
    parse_risk_score (pre ++ rk ++ mid ++ ds ++ c :: post) =
    Ok (clamp (digits_value (firstn 3 ds))).
Proof.
  intros pre rk mid ds post c F E G Hne Hd Hc.
  destruct ds as [|d ds]; [congruence|].
  pose proof Hd as Hd'. simpl in Hd'. apply andb_true_iff in Hd' as [D _].
  change ((d :: ds) ++ c :: post) with (d :: (ds ++ c :: post)).
  rewrite (parse_risk_score_first pre rk mid d (ds ++ c :: post) F E G D).
  change (d :: ds ++ c :: post) with ((d :: ds) ++ c :: post).
  now rewrite digits_upto_run.
Qed.

Lemma first_risk_number_wins_witness :
  no_risk_number "Overall "
    (text_of "Risk" ++ text_of " score: " ++ text_of "72"
     ++ "/"%char :: text_of "100. Risk of relapse: 15") = true /\
  lower "Risk" = lower "Risk" /\
  risk_gap_ok " score: " = true /\
  text_of "72" <> [] /\
  forallb is_digit (text_of "72") = true /\
  is_digit "/" = false /\
  parse_risk_score "Overall Risk score: 72/100. Risk of relapse: 15" = Ok 72%Z.
Proof.
  do 3 (split; [reflexivity|]). split; [discriminate|].
  do 2 (split; [reflexivity|]).
  exact (first_risk_number_wins "Overall " "Risk" " score: " "72"
           "100. Risk of relapse: 15" "/"
           eq_refl eq_refl eq_refl ltac:(discriminate) eq_refl eq_refl).
Defined.

(** ** The banner *)

Lemma heading_is_not_the_link t (x : text) : tier_heading t ++ x <> crisis_link.
Proof.
  destruct t; discriminate.
Qed.


(** ** The lines of the report *)

Lemma split_lines_no_line_feed t l : In l (split_lines t) -> ~ In line_feed l.
Proof.
  intros H N. apply (split_by_no_sep _ _ _ _ H) in N.
  now rewrite N.eqb_refl in N.
Qed.

Lemma join_split_lines t : join_by line_feed (split_lines t) = t.
Proof.
  apply join_split. intros c H. apply N.eqb_eq in H. now symmetry.
Qed.

(** A text of the parsers' alphabet is one that the writer encodes. *)
Lemma latin1_report_returns rows_per_page (t : text) :
  exists doc, generate_pdf_report rows_per_page (pystr_of t) = Ok doc.
Proof.
  pose proof (report_spec rows_per_page (pystr_of t)) as S.
  now rewrite (encodable_text_lines _ (pystr_of_encodable t)) in S.
Qed.

(** X8. Every row of an exported document is a stripped line: it has the
    height 10, holds no line feed, and neither starts nor ends with white
    space. *)
Theorem report_rows_are_tight :
  forall (rows_per_page : nat) (t : pystr) (doc : list (list row)) (r : row),
    generate_pdf_report rows_per_page t = Ok doc ->
    In r (rendered_rows doc) ->
    row_h r = 10%Z /\
    tight_by is_space_cp (row_txt r) = true /\
    ~ In line_feed (row_txt r).
Proof.
  intros cap t doc r R H. rewrite (report_rows _ _ _ R) in H.
  apply in_map_iff in H as (line & <- & H). simpl.
  split; [reflexivity|]. split; [apply strip_by_tight|].
  intros N. apply strip_by_In in N. now apply (split_lines_no_line_feed _ _ H).
Qed.

Lemma report_rows_are_tight_witness :
  generate_pdf_report 26 (pystr_of "a " ++ line_feed :: pystr_of "  b c  ") =
    Ok [[mkRow 10 (pystr_of "a"); mkRow 10 (pystr_of "b c")]] /\
  row_h (mkRow 10 (pystr_of "b c")) = 10%Z /\
  tight_by is_space_cp (row_txt (mkRow 10 (pystr_of "b c"))) = true /\
  ~ In line_feed (row_txt (mkRow 10 (pystr_of "b c"))).
Proof.
  split; [reflexivity|].
  exact (report_rows_are_tight 26
           (pystr_of "a " ++ line_feed :: pystr_of "  b c  ")
           [[mkRow 10 (pystr_of "a"); mkRow 10 (pystr_of "b c")]]
           (mkRow 10 (pystr_of "b c"))
           eq_refl (or_intror (or_introl eq_refl))).
Defined.

(** X9. In an exported document, stripping has dropped the white space
    around a line and nothing else: a line made of white space, a text
    with no white space at its ends, and white space again gives the row
    of that text, verbatim (markers such as ** included); a line of white
    space only gives an empty row. *)
Theorem report_row_keeps_the_core :
  forall (rows_per_page i : nat) (t : pystr) (doc : list (list row))
         (ws1 core ws2 : pystr),
    generate_pdf_report rows_per_page t = Ok doc ->
    nth_error (split_lines t) i = Some (ws1 ++ core ++ ws2) ->
    forallb is_space_cp ws1 = true ->
    forallb is_space_cp ws2 = true ->
    tight_by is_space_cp core = true ->
    nth_error (rendered_rows doc) i = Some (mkRow 10 core).
Proof.
  intros cap i t doc ws1 core ws2 R H F1 F2 T.
  rewrite (report_rows _ _ _ R), nth_error_map, H. simpl.
  unfold strip_cp. now rewrite strip_by_core.
Qed.

Lemma report_row_keeps_the_core_witness :
  generate_pdf_report 26 (pystr_of "Title" ++ line_feed :: pystr_of "  **Risk** 72  ") =
    Ok [[mkRow 10 (pystr_of "Title"); mkRow 10 (pystr_of "**Risk** 72")]] /\
  nth_error (split_lines (pystr_of "Title" ++ line_feed :: pystr_of "  **Risk** 72  ")) 1 =
    Some (pystr_of "  " ++ pystr_of "**Risk** 72" ++ pystr_of "  ") /\
  forallb is_space_cp (pystr_of "  ") = true /\
  tight_by is_space_cp (pystr_of "**Risk** 72") = true /\
  nth_error (rendered_rows
               [[mkRow 10 (pystr_of "Title"); mkRow 10 (pystr_of "**Risk** 72")]]) 1 =
    Some (mkRow 10 (pystr_of "**Risk** 72")).
Proof.
  do 4 (split; [reflexivity|]).
  exact (report_row_keeps_the_core 26 1
           (pystr_of "Title" ++ line_feed :: pystr_of "  **Risk** 72  ")
           [[mkRow 10 (pystr_of "Title"); mkRow 10 (pystr_of "**Risk** 72")]]
           (pystr_of "  ") (pystr_of "**Risk** 72") (pystr_of "  ")
           eq_refl eq_refl eq_refl eq_refl eq_refl).
Defined.

(** X10. When the export returns a document, the exporter has cut the
    text at its line feeds and lost nothing by it: the pieces hold no line
    feed, joined by line feeds they give the text back, and the rows are
    these pieces, stripped, in order. *)
Theorem report_lines_rejoin :
  forall (rows_per_page : nat) (t : pystr) (doc : list (list row)),
    generate_pdf_report rows_per_page t = Ok doc ->
    exists lines,
      join_by line_feed lines = t /\
      (forall l, In l lines -> ~ In line_feed l) /\
      map row_txt (rendered_rows doc) = map strip_cp lines.
Proof.
  intros cap t doc R. exists (split_lines t).
  split; [apply join_split_lines|]. split.
  - intros l. apply split_lines_no_line_feed.
  - rewrite (report_rows _ _ _ R), map_map. reflexivity.
Qed.

Lemma report_lines_rejoin_witness :
  generate_pdf_report 26 (pystr_of " a" ++ line_feed :: pystr_of "b ") =
    Ok [[mkRow 10 (pystr_of "a"); mkRow 10 (pystr_of "b")]] /\
  exists lines,
    join_by line_feed lines = pystr_of " a" ++ line_feed :: pystr_of "b " /\
    (forall l, In l lines -> ~ In line_feed l) /\
    map row_txt (rendered_rows [[mkRow 10 (pystr_of "a"); mkRow 10 (pystr_of "b")]]) =
      map strip_cp lines.
Proof.
  split; [reflexivity|].
  exact (report_lines_rejoin 26 (pystr_of " a" ++ line_feed :: pystr_of "b ")
           [[mkRow 10 (pystr_of "a"); mkRow 10 (pystr_of "b")]] eq_refl).
Defined.

(** ** A session *)

Lemma split_keys_values (d : dict) : List.split d = (dict_keys d, dict_values d).
Proof.
  unfold dict_keys, dict_values.
  induction d as [|[k v] d IH]; simpl; auto. now rewrite IH.
Qed.

Section SessionFacts.

Variable gemini_prompt : text.
Variable generate_content : request -> outcome text.
Variable render : figure -> outcome unit.
Variable rows_per_page : nat.

Local Abbreviation get_response := (get_gemini_response generate_content).
Local Abbreviation analyse :=
  (analysis gemini_prompt generate_content render rows_per_page).
Local Abbreviation session :=
  (run gemini_prompt generate_content render rows_per_page).

(** Called as the session calls it, [get_gemini_response] sends one
    request and hands back what the service returns or raises. *)
Lemma session_get_response user_input uploaded_file w :
  get_response user_input
    (match uploaded_file with
     | Some f => Some (input_image_setup f)
     | None => None
     end)
    gemini_prompt
    (match uploaded_file with Some _ => true | None => false end) w =
  (mkWorld (ui w)
     (calls w ++ [session_request gemini_prompt user_input uploaded_file]),
   generate_content (session_request gemini_prompt user_input uploaded_file)).
Proof.
  destruct uploaded_file; reflexivity.
Qed.

Lemma analysis_failure user_input uploaded_file w e :
  generate_content (session_request gemini_prompt user_input uploaded_file) = Thrown e ->
  analyse user_input uploaded_file w =
  (mkWorld (ui w)
     (calls w ++ [session_request gemini_prompt user_input uploaded_file]),
   Thrown e).
Proof.
  intros H. unfold analysis.
  unfold seq at 1. rewrite session_get_response, H. reflexivity.
Qed.

(** What the body of the [try] does once the service has replied. *)
Lemma analysis_success user_input uploaded_file w response :
  generate_content (session_request gemini_prompt user_input uploaded_file)
    = Returned response ->
  analyse user_input uploaded_file w =
  let calls' := calls w ++ [session_request gemini_prompt user_input uploaded_file] in
  let page := ui w ++ report_widgets response in
  let export (shown : list widget) :=
    match generate_pdf_report rows_per_page (pystr_of response) with
    | Ok doc => (mkWorld (page ++ shown ++ [download_widget doc]) calls', Returned tt)
    | Raise e => (mkWorld (page ++ shown) calls', Thrown (Builtin e))
    end in
  match parse_sentiments response with
  | Raise e => (mkWorld page calls', Thrown (Builtin e))
  | Ok [] => export []
  | Ok (m :: d) =>
      match render (sentiment_figure (m :: d)) with
      | Returned _ => export [chart_heading; StPyplot (sentiment_figure (m :: d))]
      | Thrown e => (mkWorld (page ++ [chart_heading]) calls', Thrown e)
      end
  end.
Proof.
  intros H. unfold analysis.
  unfold seq at 1. rewrite session_get_response, H.
  rewrite parse_risk_score_spec.
  generalize (generate_pdf_report rows_per_page (pystr_of response)) as report.
  generalize (parse_sentiments response) as sentiments.
  intros sentiments report.
  unfold seq, st, st_markdowns, lift, ret, throw, report_widgets, download_widget,
    chart_heading. simpl.
  destruct sentiments as [[|[k v] d]|e]; simpl.
  - destruct report; simpl; rewrite <- ?app_assoc; simpl; rewrite ?app_nil_r;
      reflexivity.
  - rewrite split_keys_values.
    unfold sentiment_figure, dict_keys, dict_values. simpl.
    destruct (render _); simpl; [|rewrite <- !app_assoc; reflexivity].
    destruct report; simpl; rewrite <- !app_assoc; reflexivity.
  - rewrite <- !app_assoc. reflexivity.
Qed.

Lemma session_unfold user_input uploaded_file w :
  nothing_supplied user_input uploaded_file = false ->
  session user_input uploaded_file true w =
  match analyse user_input uploaded_file
          (mkWorld (ui w ++ preview uploaded_file) (calls w)) with
  | (w', Returned _) => w'
  | (w', Thrown e) => mkWorld (ui w' ++ [StError e]) (calls w')
  end.
Proof.
  unfold nothing_supplied, run, preview. intros H.
  assert (W : match uploaded_file with
              | Some f => fst (st (StImage f "Uploaded Image") w)
              | None => w
              end =
              mkWorld (ui w ++ match uploaded_file with
                               | Some f => [StImage f "Uploaded Image"]
                               | None => []
                               end) (calls w)).
  { destruct uploaded_file; simpl; [reflexivity|].
    rewrite app_nil_r. now destruct w. }
  rewrite W.
  destruct (strip user_input), uploaded_file; try discriminate; reflexivity.
Qed.

Lemma session_idle user_input uploaded_file w :
  session user_input uploaded_file false w =
  mkWorld (ui w ++ preview uploaded_file) (calls w).
Proof.
  unfold run, preview. destruct uploaded_file; simpl; [reflexivity|].
  rewrite app_nil_r. now destruct w.
Qed.

Lemma session_blank user_input w :
  strip user_input = [] ->
  session user_input None true w =
  mkWorld (ui w ++ [StWarning "Please provide text input or upload an image to analyze."])
    (calls w).
Proof.
  intros H. unfold run. now rewrite H.
Qed.

Lemma nothing_supplied_blank user_input uploaded_file :
  nothing_supplied user_input uploaded_file = true ->
  strip user_input = [] /\ uploaded_file = None.
Proof.
  unfold nothing_supplied.
  destruct (strip user_input), uploaded_file; try discriminate. auto.
Qed.

(** X11. A run calls the hosted model once when the button is clicked and
    a text or an image is supplied, and not at all otherwise.  The one
    request names the model gemini-1.5-flash and holds the text as typed,
    then the uploaded image when there is one, then the prompt. *)
Theorem model_is_called_once_or_never :
  forall (user_input : text) (uploaded_file : option UploadedFile)
         (clicked : bool) (w : world),
    calls (session user_input uploaded_file clicked w) =
    calls w ++
    (if clicked && negb (nothing_supplied user_input uploaded_file)
     then [session_request gemini_prompt user_input uploaded_file]
     else []).
Proof.
  intros user_input uploaded_file clicked w.
  destruct clicked; simpl andb.
  2:{ rewrite session_idle. simpl. now rewrite app_nil_r. }
  destruct (nothing_supplied user_input uploaded_file) eqn:N; simpl negb.
  - apply nothing_supplied_blank in N as [N ->].
    rewrite (session_blank _ _ N). simpl. now rewrite app_nil_r.
  - rewrite (session_unfold _ _ _ N).
    destruct (generate_content (session_request gemini_prompt user_input uploaded_file))
      as [response|e] eqn:G.
    + rewrite (analysis_success _ _ _ _ G). cbv zeta.
      destruct (parse_sentiments response) as [[|m d]|e]; [| |reflexivity].
      * now destruct (generate_pdf_report _ _).
      * destruct (render _); [|reflexivity].
        now destruct (generate_pdf_report _ _).
    + now rewrite (analysis_failure _ _ _ _ G).
Qed.

(** X12. A text of white space only, with no image, is no input: the
    click shows the warning and nothing else, and the model is not
    called. *)
Theorem blank_input_gives_a_warning_only :
  forall (user_input : text) (w : world),
    forallb is_space user_input = true ->
    session user_input None true w =
    mkWorld (ui w ++ [StWarning "Please provide text input or upload an image to analyze."])
      (calls w).
Proof.
  intros user_input w H. apply session_blank.
  now apply strip_by_all_spaces.
Qed.

(** X13. When the hosted model fails, the page gets the error and nothing
    of an analysis: no report, no banner, no chart, no download. *)
Theorem service_failure_shows_the_error_only :
  forall (user_input : text) (uploaded_file : option UploadedFile)
         (w : world) (e : exception),
    nothing_supplied user_input uploaded_file = false ->
    generate_content (session_request gemini_prompt user_input uploaded_file) = Thrown e ->
    ui (session user_input uploaded_file true w) =
    ui w ++ preview uploaded_file ++ [StError e].
Proof.
  intros user_input uploaded_file w e N G.
  rewrite (session_unfold _ _ _ N), (analysis_failure _ _ _ _ G). simpl.
  now rewrite <- app_assoc.
Qed.

(** X14. When the hosted model replies, the parser of the sentiments
    returns a mapping, the chart (if there is one to draw) can be drawn,
    and the exporter returns a document, the page gets, in this order:
    the reply verbatim, the banner of the score read from it, the chart of
    the mapping when it is not empty (its slices in the order and with the
    values of the mapping), and the download of the document; no error is
    shown. *)
Theorem reply_is_rendered_in_order :
  forall (user_input : text) (uploaded_file : option UploadedFile)
         (w : world) (response : text) (d : dict) (doc : list (list row)),
    nothing_supplied user_input uploaded_file = false ->
    generate_content (session_request gemini_prompt user_input uploaded_file)
      = Returned response ->
    parse_sentiments response = Ok d ->
    (d <> [] -> render (sentiment_figure d) = Returned tt) ->
    generate_pdf_report rows_per_page (pystr_of response) = Ok doc ->
    ui (session user_input uploaded_file true w) =
    ui w ++ preview uploaded_file ++ report_widgets response
    ++ match d with
       | [] => []
       | _ :: _ => [chart_heading; StPyplot (sentiment_figure d)]
       end
    ++ [download_widget doc].
Proof.
  intros user_input uploaded_file w response d doc N G P R E.
  rewrite (session_unfold _ _ _ N), (analysis_success _ _ _ _ G). cbv zeta.
  rewrite P, E.
  destruct d as [|m d].
  - simpl ui. rewrite <- !app_assoc. reflexivity.
  - rewrite R by discriminate. simpl ui. rewrite <- !app_assoc. reflexivity.
Qed.

(** X15. When the parser of the sentiments returns a mapping that is not
    empty and the drawing of its chart fails, the report and the banner
    stay on the page, the error follows the heading of the chart, and the
    download of the report is not offered. *)
Theorem chart_failure_drops_the_download :
  forall (user_input : text) (uploaded_file : option UploadedFile)
         (w : world) (response : text) (d : dict) (e : exception),
    nothing_supplied user_input uploaded_file = false ->
    generate_content (session_request gemini_prompt user_input uploaded_file)
      = Returned response ->
    parse_sentiments response = Ok d ->
    d <> [] ->
    render (sentiment_figure d) = Thrown e ->
    ui (session user_input uploaded_file true w) =
    ui w ++ preview uploaded_file ++ report_widgets response
    ++ [chart_heading; StError e].
Proof.
  intros user_input uploaded_file w response d e N G P S R.
  rewrite (session_unfold _ _ _ N), (analysis_success _ _ _ _ G). cbv zeta.
  rewrite P. destruct d as [|m d]; [congruence|].
  rewrite R. simpl ui. rewrite <- !app_assoc. reflexivity.
Qed.

(** X17. When the parser of the sentiments raises, the report and the
    banner stay on the page and the error follows them: neither the chart
    nor the download is shown. *)
Theorem sentiment_failure_shows_the_error :
  forall (user_input : text) (uploaded_file : option UploadedFile)
         (w : world) (response : text) (e : exn),
    nothing_supplied user_input uploaded_file = false ->
    generate_content (session_request gemini_prompt user_input uploaded_file)
      = Returned response ->
    parse_sentiments response = Raise e ->
    ui (session user_input uploaded_file true w) =
    ui w ++ preview uploaded_file ++ report_widgets response
    ++ [StError (Builtin e)].
Proof.
  intros user_input uploaded_file w response e N G P.
  rewrite (session_unfold _ _ _ N), (analysis_success _ _ _ _ G). cbv zeta.
  rewrite P. simpl ui. rewrite <- !app_assoc. reflexivity.
Qed.

Lemma crisis_link_written score :
  In crisis_link (display_risk_level score []) <-> (67 <= score)%Z.
Proof.
  rewrite display_risk_level_classify. simpl app.
  pose proof (classify_high score) as H.
  pose proof (heading_is_not_the_link (classify score)
                (str_int score ++ text_of "/100)")) as N.
  destruct (classify score); split; intros A; try (apply H; reflexivity);
    try (right; now left);
    try (destruct A as [A|[]]; now apply N in A);
    apply H in A; discriminate.
Qed.

Lemma crisis_link_in_report response :
  In (StMarkdown crisis_link) (report_widgets response) <->
  (67 <= Spec.extractRiskScore response)%Z.
Proof.
  rewrite <- crisis_link_written. unfold report_widgets.
  rewrite in_app_iff, in_map_iff. split.
  - intros [[A|[A|[A|[]]]]|(x & [= ->] & A)]; try discriminate. exact A.
  - intros A. right. now exists crisis_link.
Qed.

(** X16. Once the hosted model has replied, the crisis link is on the page
    exactly when the score read from the reply is 67 or more, whether or
    not the chart could be drawn afterwards. *)
Theorem session_shows_crisis_link_iff_high :
  forall (user_input : text) (uploaded_file : option UploadedFile)
         (w : world) (response : text),
    nothing_supplied user_input uploaded_file = false ->
    generate_content (session_request gemini_prompt user_input uploaded_file)
      = Returned response ->
    exists added,
      ui (session user_input uploaded_file true w) = ui w ++ added /\
      (In (StMarkdown crisis_link) added <->
       (67 <= Spec.extractRiskScore response)%Z).
Proof.
  intros user_input uploaded_file w response N G.
  rewrite (session_unfold _ _ _ N), (analysis_success _ _ _ _ G). cbv zeta.
  assert (P : forall tail,
    ~ In (StMarkdown crisis_link) (preview uploaded_file) ->
    ~ In (StMarkdown crisis_link) tail ->
    (In (StMarkdown crisis_link)
        (preview uploaded_file ++ report_widgets response ++ tail) <->
     (67 <= Spec.extractRiskScore response)%Z)).
  { intros tail H1 H2. rewrite !in_app_iff, crisis_link_in_report. tauto. }
  assert (Pv : ~ In (StMarkdown crisis_link) (preview uploaded_file)).
  { unfold preview. destruct uploaded_file; simpl; [intros [A|[]]; discriminate | tauto]. }
  assert (X : forall shown,
    ~ In (StMarkdown crisis_link) shown ->
    exists added,
      ui (match generate_pdf_report rows_per_page (pystr_of response) with
          | Ok doc =>
              mkWorld (((ui w ++ preview uploaded_file) ++ report_widgets response)
                       ++ shown ++ [download_widget doc])
                (calls w ++ [session_request gemini_prompt user_input uploaded_file])
          | Raise e =>
              mkWorld
                ((((ui w ++ preview uploaded_file) ++ report_widgets response)
                  ++ shown) ++ [StError (Builtin e)])
                (calls w ++ [session_request gemini_prompt user_input uploaded_file])
          end) = ui w ++ added /\
      (In (StMarkdown crisis_link) added <->
       (67 <= Spec.extractRiskScore response)%Z)).
  { intros shown S.
    destruct (generate_pdf_report rows_per_page (pystr_of response)) as [doc|e].
    - exists (preview uploaded_file ++ report_widgets response
              ++ shown ++ [download_widget doc]).
      split; [simpl ui; now rewrite <- !app_assoc|].
      apply P; auto. rewrite in_app_iff. intros [A|[A|[]]]; [auto | discriminate].
    - exists (preview uploaded_file ++ report_widgets response
              ++ shown ++ [StError (Builtin e)]).
      split; [simpl ui; now rewrite <- !app_assoc|].
      apply P; auto. rewrite in_app_iff. intros [A|[A|[]]]; [auto | discriminate]. }
  destruct (parse_sentiments response) as [[|m d]|e].
  - destruct (X []) as (added & E & L); [intros []|].
    exists added. split; [|exact L]. rewrite <- E.
    now destruct (generate_pdf_report rows_per_page (pystr_of response)).
  - destruct (render (sentiment_figure (m :: d))) as [a|e].
    + destruct (X [chart_heading; StPyplot (sentiment_figure (m :: d))])
        as (added & E & L); [intros [A|[A|[]]]; discriminate|].
      exists added. split; [|exact L]. rewrite <- E.
      now destruct (generate_pdf_report rows_per_page (pystr_of response)).
    + exists (preview uploaded_file ++ report_widgets response
              ++ [chart_heading; StError e]).
      split; [simpl ui; now rewrite <- !app_assoc|].
      apply P; auto. intros [A|[A|[]]]; discriminate.
  - exists (preview uploaded_file ++ report_widgets response
            ++ [StError (Builtin e)]).
    split; [simpl ui; now rewrite <- !app_assoc|].
    apply P; auto. intros [A|[]]; discriminate.
Qed.

(** Fed with what [input_image_setup] builds from an upload,
    [get_gemini_response] sends one request that holds the text, the
    image with the type and the bytes of the upload, and the prompt, and
    passes on what the service returns or raises; the page is left alone.
    Told that an image is uploaded but given no part, it raises without
    calling the model. *)
Lemma upload_reaches_the_request :
  forall (user_text prompt : text) (w : world),
    (forall f : UploadedFile,
       get_response user_text (Some (input_image_setup f)) prompt true w =
       let r := mkRequest "gemini-1.5-flash"
                  [CText user_text;
                   CImage (mkImagePart (file_type f) (file_bytes f));
                   CText prompt] in
       (mkWorld (ui w) (calls w ++ [r]), generate_content r)) /\
    get_response user_text (Some []) prompt true w = (w, Thrown IndexError) /\
    get_response user_text None prompt true w = (w, Thrown TypeError).
Proof.
  intros user_text prompt w. repeat split.
Qed.

End SessionFacts.

Lemma blank_input_gives_a_warning_only_witness :
  forallb is_space (text_of "   ") = true /\
  run "prompt" (fun _ => Returned (text_of "reply")) (fun _ => Returned tt) 26
      "   " None true (mkWorld [] []) =
  mkWorld ([] ++ [StWarning "Please provide text input or upload an image to analyze."]) [].
Proof.
  split; [reflexivity|].
  exact (blank_input_gives_a_warning_only "prompt"
           (fun _ => Returned (text_of "reply")) (fun _ => Returned tt) 26
           "   " (mkWorld [] []) eq_refl).
Defined.

Lemma service_failure_shows_the_error_only_witness :
  nothing_supplied "I feel low" None = false /\
  ui (run "prompt" (fun _ => Thrown (External "quota")) (fun _ => Returned tt) 26
          "I feel low" None true (mkWorld [] [])) =
  [] ++ preview None ++ [StError (External "quota")].
Proof.
  split; [reflexivity|].
  exact (service_failure_shows_the_error_only "prompt"
           (fun _ => Thrown (External "quota")) (fun _ => Returned tt) 26
           "I feel low" None (mkWorld [] []) (External "quota") eq_refl eq_refl).
Defined.

Lemma reply_is_rendered_in_order_witness :
  nothing_supplied "I feel low" None = false /\
  parse_sentiments "Risk score: 72. Positive 10%" = Ok [(text_of "Positive", 10%Z)] /\
  generate_pdf_report 26 (pystr_of "Risk score: 72. Positive 10%") =
    Ok [[mkRow 10 (pystr_of "Risk score: 72. Positive 10%")]] /\
  ui (run "prompt" (fun _ => Returned (text_of "Risk score: 72. Positive 10%"))
          (fun _ => Returned tt) 26 "I feel low" None true (mkWorld [] [])) =
  [] ++ preview None ++ report_widgets "Risk score: 72. Positive 10%"
  ++ [chart_heading; StPyplot (sentiment_figure [(text_of "Positive", 10%Z)])]
  ++ [download_widget [[mkRow 10 (pystr_of "Risk score: 72. Positive 10%")]]].
Proof.
  do 3 (split; [reflexivity|]).
  exact (reply_is_rendered_in_order "prompt"
           (fun _ => Returned (text_of "Risk score: 72. Positive 10%"))
           (fun _ => Returned tt) 26 "I feel low" None (mkWorld [] [])
           "Risk score: 72. Positive 10%" [(text_of "Positive", 10%Z)]
           [[mkRow 10 (pystr_of "Risk score: 72. Positive 10%")]]
           eq_refl eq_refl eq_refl (fun _ => eq_refl) eq_refl).
Defined.

Lemma chart_failure_drops_the_download_witness :
  nothing_supplied "I feel low" None = false /\
  parse_sentiments "Risk score: 72. Positive 0%" = Ok [(text_of "Positive", 0%Z)] /\
  ui (run "prompt" (fun _ => Returned (text_of "Risk score: 72. Positive 0%"))
          (fun _ => Thrown (External "no slice")) 26
          "I feel low" None true (mkWorld [] [])) =
  [] ++ preview None ++ report_widgets "Risk score: 72. Positive 0%"
  ++ [chart_heading; StError (External "no slice")].
Proof.
  do 2 (split; [reflexivity|]).
  exact (chart_failure_drops_the_download "prompt"
           (fun _ => Returned (text_of "Risk score: 72. Positive 0%"))
           (fun _ => Thrown (External "no slice")) 26
           "I feel low" None (mkWorld [] [])
           "Risk score: 72. Positive 0%" [(text_of "Positive", 0%Z)]
           (External "no slice")
           eq_refl eq_refl eq_refl ltac:(discriminate) eq_refl).
Defined.

Lemma sentiment_failure_shows_the_error_witness :
  let response := text_of "Risk 72. Positive " ++ repeat "1"%char 4301 ++ text_of "%" in
  nothing_supplied "I feel low" None = false /\
  parse_sentiments response = Raise ValueError /\
  ui (run "prompt" (fun _ => Returned response) (fun _ => Returned tt) 26
          "I feel low" None true (mkWorld [] [])) =
  [] ++ preview None ++ report_widgets response ++ [StError (Builtin ValueError)].
Proof.
  intros response.
  assert (P : parse_sentiments response = Raise ValueError)
    by (vm_compute; reflexivity).
  split; [reflexivity|]. split; [exact P|].
  exact (sentiment_failure_shows_the_error "prompt"
           (fun _ => Returned response) (fun _ => Returned tt) 26
           "I feel low" None (mkWorld [] []) response ValueError
           eq_refl eq_refl P).
Defined.

Lemma session_shows_crisis_link_iff_high_witness :
  nothing_supplied "I feel low" None = false /\
  exists added,
    ui (run "prompt" (fun _ => Returned (text_of "Risk score: 72. Positive 10%"))
            (fun _ => Returned tt) 26 "I feel low" None true (mkWorld [] [])) =
      [] ++ added /\
    (In (StMarkdown crisis_link) added <->
     (67 <= Spec.extractRiskScore "Risk score: 72. Positive 10%")%Z).
Proof.
  split; [reflexivity|].
  exact (session_shows_crisis_link_iff_high "prompt"
           (fun _ => Returned (text_of "Risk score: 72. Positive 10%"))
           (fun _ => Returned tt) 26 "I feel low" None (mkWorld [] [])
           "Risk score: 72. Positive 10%" eq_refl eq_refl).
Defined.
